(** * Deep Wordsmith: the resilient outbound-call layer

    A shallow embedding of

    - [CircuitBreaker] (src/lib/error-handling, the class that
      [enhanced-api-service.ts] imports as [circuit-breaker]),
    - [EnhancedApiService] (src/lib/api/enhanced-api-service.ts): the error
      classifier [handleError] / [isRetryableError] and the retrying
      [get] / [post],
    - the service adapters (grok-service.ts, anthropic-service.ts,
      perplexity-service.ts, flux-service.ts),
    - the environment helpers and validator (lib/env.ts,
      lib/env-validator.ts) that the service constructor relies on,
    - the route handler app/api/analyze-language/route.ts, which calls the
      Anthropic adapter.

    JavaScript numbers that the code uses as counters, HTTP statuses and
    millisecond timestamps are integers [Z]; an [async] function is a
    computation in a state-and-exception monad over the [World] (one logical
    call is followed from start to end, no other call interleaves). *)

From Stdlib Require Import ZArith List String Bool Lia DecimalString.
Import ListNotations.

Open Scope string_scope.
Open Scope Z_scope.

(* ------------------------------------------------------------------ *)
(** * JavaScript values that the layer handles *)

(** What a [catch] clause can receive.  [AxiosError] carries
    [error.response?.status], [error.code], the server-side message
    ([response.data.error.message || response.data.message]) and
    [error.message]. *)
Inductive Thrown : Type :=
| AxiosError (status : option Z) (code : option string)
             (serverMessage : option string) (message : string)
| JsError (message : string)
| NonError (text : string).

(** [axios.isAxiosError(error)] *)
Definition isAxiosError (error : Thrown) : bool :=
  match error with AxiosError _ _ _ _ => true | _ => false end.

(** [error instanceof Error] *)
Definition instanceofError (error : Thrown) : bool :=
  match error with NonError _ => false | _ => true end.

(** [error.message] of an [Error]; [String(error)] of anything else. *)
Definition messageOf (error : Thrown) : string :=
  match error with
  | AxiosError _ _ _ m => m
  | JsError m => m
  | NonError t => t
  end.

(** [error instanceof Error ? error : new Error(String(error))] *)
Definition asError (error : Thrown) : Thrown :=
  if instanceofError error then error else JsError (messageOf error).

(** Truthiness of an optional number ([undefined], [0] are falsy) and of an
    optional string ([undefined], the empty string are falsy). *)
Definition truthyNum (n : option Z) : bool :=
  match n with Some z => negb (z =? 0) | None => false end.

Definition truthyStr (s : option string) : bool :=
  match s with Some t => negb (String.eqb t "") | None => false end.

(** [a || b] on optional strings. *)
Definition orStr (a b : option string) : option string :=
  if truthyStr a then a else b.

(** Template-literal rendering of an optional number. *)
Definition showNum (n : option Z) : string :=
  match n with
  | Some z => NilZero.string_of_int (Z.to_int z)
  | None => "undefined"
  end.

(* ------------------------------------------------------------------ *)
(** * The circuit breaker object and the world around it *)

Inductive CircuitBreakerState : Type := CLOSED | OPEN | HALF_OPEN.

Definition state_eqb (a b : CircuitBreakerState) : bool :=
  match a, b with
  | CLOSED, CLOSED | OPEN, OPEN | HALF_OPEN, HALF_OPEN => true
  | _, _ => false
  end.

Record CircuitBreakerOptions : Type := mkOptions {
  failureThreshold : Z;
  successThreshold : Z;
  timeout : Z
}.

Record CircuitBreaker : Type := mkBreaker {
  state : CircuitBreakerState;
  failureCount : Z;
  successCount : Z;
  nextAttempt : Z;
  lastError : option Thrown;
  options : CircuitBreakerOptions
}.

(** [new CircuitBreaker(options)] *)
Definition newCircuitBreaker (o : CircuitBreakerOptions) : CircuitBreaker :=
  mkBreaker CLOSED 0 0 0 None o.

(** The mutable surroundings of one service object:
    - [breaker]: its [circuitBreaker] field;
    - [clock]: what [Date.now()] returns;
    - [requests]: how many requests have been handed to the Axios client;
    - [notified]: the [(from, to)] pairs passed to [onStateChange];
    - [draws]: how many times [Math.random()] has been called. *)
Record World : Type := mkWorld {
  breaker : CircuitBreaker;
  clock : Z;
  requests : nat;
  notified : list (CircuitBreakerState * CircuitBreakerState);
  draws : nat
}.

Definition withBreaker (f : CircuitBreaker -> CircuitBreaker) (w : World) : World :=
  mkWorld (f (breaker w)) (clock w) (requests w) (notified w) (draws w).

Definition setState (s : CircuitBreakerState) (b : CircuitBreaker) :=
  mkBreaker s (failureCount b) (successCount b) (nextAttempt b) (lastError b) (options b).
Definition setFailureCount (n : Z) (b : CircuitBreaker) :=
  mkBreaker (state b) n (successCount b) (nextAttempt b) (lastError b) (options b).
Definition setSuccessCount (n : Z) (b : CircuitBreaker) :=
  mkBreaker (state b) (failureCount b) n (nextAttempt b) (lastError b) (options b).
Definition setNextAttempt (n : Z) (b : CircuitBreaker) :=
  mkBreaker (state b) (failureCount b) (successCount b) n (lastError b) (options b).
Definition setLastError (e : option Thrown) (b : CircuitBreaker) :=
  mkBreaker (state b) (failureCount b) (successCount b) (nextAttempt b) e (options b).

(* ------------------------------------------------------------------ *)
(** * Computations: state plus exceptions *)

Inductive Completion (A : Type) : Type :=
| Normal (value : A)
| Abrupt (error : Thrown).
Arguments Normal {A} value.
Arguments Abrupt {A} error.

Definition M (A : Type) : Type := World -> Completion A * World.

Definition ret {A} (a : A) : M A := fun w => (Normal a, w).

Definition throw {A} (e : Thrown) : M A := fun w => (Abrupt e, w).

Definition bind {A B} (m : M A) (k : A -> M B) : M B :=
  fun w =>
    match m w with
    | (Normal a, w') => k a w'
    | (Abrupt e, w') => (Abrupt e, w')
    end.

(** [try { m } catch (error) { h error }] *)
Definition tryCatch {A} (m : M A) (h : Thrown -> M A) : M A :=
  fun w =>
    match m w with
    | (Normal a, w') => (Normal a, w')
    | (Abrupt e, w') => h e w'
    end.

Definition gets {A} (f : World -> A) : M A := fun w => (Normal (f w), w).

Definition modify (f : World -> World) : M unit := fun w => (Normal tt, f w).

Notation "x <- m ;; k" := (bind m (fun x => k))
  (at level 61, m at next level, right associativity).
Notation "m ;; k" := (bind m (fun _ => k))
  (at level 61, right associativity).

(** Reading and writing the fields of [this] inside the breaker. *)
Definition this {A} (f : CircuitBreaker -> A) : M A := gets (fun w => f (breaker w)).
Definition assign (f : CircuitBreaker -> CircuitBreaker) : M unit := modify (withBreaker f).

(** [Date.now()] *)
Definition Date_now : M Z := gets clock.

(** [await new Promise(resolve => setTimeout(resolve, delay))]: the timer
    fires once [delay] milliseconds have gone by (at once when [delay] is
    not positive). *)
Definition sleep (delay : Z) : M unit :=
  modify (fun w => mkWorld (breaker w) (clock w + Z.max 0 delay) (requests w)
                           (notified w) (draws w)).

(* ------------------------------------------------------------------ *)
(** * class CircuitBreaker *)

(** [options.onStateChange(from, to)], as [EnhancedApiService] installs it:
    it reports the pair and does nothing else. *)
Definition onStateChange (from to : CircuitBreakerState) : M unit :=
  modify (fun w => mkWorld (breaker w) (clock w) (requests w)
                           (notified w ++ [(from, to)]) (draws w)).

Definition changeState (to : CircuitBreakerState) : M unit :=
  from <- this state ;;
  if state_eqb from to then ret tt
  else
    assign (setState to) ;;
    onStateChange from to.

Definition reset : M unit :=
  changeState CLOSED ;;
  assign (setFailureCount 0) ;;
  assign (setSuccessCount 0) ;;
  assign (setNextAttempt 0).

Definition toOpen : M unit :=
  changeState OPEN ;;
  now <- Date_now ;;
  tmo <- this (fun b => timeout (options b)) ;;
  assign (setNextAttempt (now + tmo)) ;;
  assign (setSuccessCount 0).

Definition toHalfOpen : M unit :=
  changeState HALF_OPEN ;;
  assign (setSuccessCount 0).

Definition onSuccess : M unit :=
  st <- this state ;;
  if state_eqb st HALF_OPEN then
    assign (fun b => setSuccessCount (successCount b + 1) b) ;;
    sc <- this successCount ;;
    thr <- this (fun b => successThreshold (options b)) ;;
    if sc >=? thr then reset else ret tt
  else if state_eqb st CLOSED then
    assign (setFailureCount 0)
  else ret tt.

Definition onFailure (error : Thrown) : M unit :=
  assign (setLastError (Some error)) ;;
  st <- this state ;;
  if state_eqb st HALF_OPEN then toOpen
  else if state_eqb st CLOSED then
    assign (fun b => setFailureCount (failureCount b + 1) b) ;;
    fc <- this failureCount ;;
    thr <- this (fun b => failureThreshold (options b)) ;;
    if fc >=? thr then toOpen else ret tt
  else ret tt.

(** The message of the error thrown while the circuit is open. *)
Definition circuitOpenMessage (last : option Thrown) : string :=
  "Service unavailable - Circuit Breaker Open" ++
  match last with
  | Some e => ": " ++ messageOf e
  | None => ""
  end.

Definition execute {A} (fn : M A) : M A :=
  st <- this state ;;
  (if state_eqb st OPEN then
     now <- Date_now ;;
     next <- this nextAttempt ;;
     if now >? next then toHalfOpen
     else
       last <- this lastError ;;
       throw (JsError (circuitOpenMessage last))
   else ret tt) ;;
  tryCatch
    (result <- fn ;;
     onSuccess ;;
     ret result)
    (fun error =>
       onFailure (asError error) ;;
       throw error).

Definition getState : M CircuitBreakerState := this state.

Record Status : Type := mkStatus {
  status_state : CircuitBreakerState;
  status_failureCount : Z;
  status_successCount : Z;
  status_nextAttempt : Z;
  remainingTimeMs : Z
}.

Definition getStatus : M Status :=
  st <- this state ;;
  fc <- this failureCount ;;
  sc <- this successCount ;;
  next <- this nextAttempt ;;
  now <- Date_now ;;
  ret (mkStatus st fc sc next (Z.max 0 (next - now))).

(* ------------------------------------------------------------------ *)
(** * API types (types/api-types.ts) *)

Inductive Details : Type :=
| NoDetails
| HttpDetails (status : option Z)
| TextDetails (text : string).

Record ApiError : Type := mkApiError {
  code : string;
  message : string;
  details : Details
}.

(** The [data] of a response: a provider's JSON body (kept as text), or the
    image record that [FluxService] builds. *)
Inductive Payload : Type :=
| Json (body : string)
| ImageData (url prompt : string) (imageError : option ApiError) (fallback : bool).

Record ApiResponse : Type := mkApiResponse {
  data : option Payload;
  error : option ApiError;
  status : Z;
  success : bool
}.

(* ------------------------------------------------------------------ *)
(** * The Axios client, seen from the service *)

Inductive Method : Type := GET | POST.

Record Request : Type := mkRequest {
  method : Method;
  url : string;
  body : option Payload
}.

Record AxiosResponse : Type := mkAxiosResponse {
  res_data : Payload;
  res_status : Z
}.

Inductive Reply : Type :=
| Resolved (res : AxiosResponse)
| Rejected (reason : Thrown).

(** The network decides, for the [n]-th request the client sends, how the
    promise settles and after how many milliseconds. *)
Definition Network : Type := Request -> nat -> Reply * nat.

Definition send (net : Network) (rq : Request) : M AxiosResponse :=
  fun w =>
    let '(reply, ms) := net rq (requests w) in
    let w' := mkWorld (breaker w) (clock w + Z.of_nat ms) (S (requests w))
                      (notified w) (draws w) in
    match reply with
    | Resolved res => (Normal res, w')
    | Rejected reason => (Abrupt reason, w')
    end.

(* ------------------------------------------------------------------ *)
(** * class EnhancedApiService *)

Definition numIs (n : option Z) (k : Z) : bool :=
  match n with Some z => z =? k | None => false end.

Definition strIs (s : option string) (k : string) : bool :=
  match s with Some t => String.eqb t k | None => false end.

(** [errorCodeMap[n]], [undefined] when [n] is not a key. *)
Definition errorCodeMap (n : Z) : option string :=
  if n =? 400 then Some "BAD_REQUEST"
  else if n =? 401 then Some "UNAUTHORIZED"
  else if n =? 403 then Some "FORBIDDEN"
  else if n =? 404 then Some "NOT_FOUND"
  else if n =? 429 then Some "RATE_LIMITED"
  else if n =? 500 then Some "INTERNAL_SERVER_ERROR"
  else if n =? 502 then Some "BAD_GATEWAY"
  else if n =? 503 then Some "SERVICE_UNAVAILABLE"
  else if n =? 504 then Some "GATEWAY_TIMEOUT"
  else None.

(** [handleError], production build (the development-only [data] and
    [stack] details are left out, as are the request's [url] and [method]). *)
Definition handleError (err : Thrown) : ApiError :=
  match err with
  | AxiosError statusCode _ serverMessage msg =>
      let key := if truthyNum statusCode
                 then match statusCode with Some z => z | None => 500 end
                 else 500 in
      let errorCode := match errorCodeMap key with
                       | Some c => c
                       | None => "API_ERROR"
                       end in
      mkApiError errorCode
        (match orStr (orStr serverMessage (Some msg))
                     (Some ("HTTP Error " ++ showNum statusCode)) with
         | Some m => m
         | None => ""
         end)
        (HttpDetails statusCode)
  | JsError msg => mkApiError "CLIENT_ERROR" msg NoDetails
  | NonError text =>
      mkApiError "UNKNOWN_ERROR" "An unexpected error occurred" (TextDetails text)
  end.

Definition isRetryableError (err : Thrown) : bool :=
  match err with
  | AxiosError st cd _ _ =>
      if negb (truthyNum st) || numIs st 429 || numIs st 503 || numIs st 504
      then true
      else if strIs cd "ECONNRESET" || strIs cd "ETIMEDOUT"
      then true
      else false
  | _ => false
  end.

(** [getErrorStatus]: the response's status when the Axios error has a
    response, [0] otherwise. *)
Definition getErrorStatus (err : Thrown) : Z :=
  match err with
  | AxiosError (Some st) _ _ _ => st
  | _ => 0
  end.

(** [config.circuitBreaker] of [ApiServiceConfig], every field optional. *)
Record CircuitBreakerConfig : Type := mkBreakerConfig {
  cfg_failureThreshold : option Z;
  cfg_successThreshold : option Z;
  cfg_timeout : option Z
}.

(** [n || d] on an optional number. *)
Definition orNum (n : option Z) (d : Z) : Z :=
  if truthyNum n then match n with Some z => z | None => d end else d.

(** The options that the constructor of [EnhancedApiService] passes to
    [new CircuitBreaker]. *)
Definition serviceBreakerOptions (cfg : option CircuitBreakerConfig)
  : CircuitBreakerOptions :=
  mkOptions
    (orNum (match cfg with Some c => cfg_failureThreshold c | None => None end) 3)
    (orNum (match cfg with Some c => cfg_successThreshold c | None => None end) 2)
    (orNum (match cfg with Some c => cfg_timeout c | None => None end) 30000).

(** [getCircuitStatus()] and [resetCircuit()] *)
Definition getCircuitStatus : M Status := getStatus.
Definition resetCircuit : M unit := reset.

Definition okResponse (res : AxiosResponse) : ApiResponse :=
  mkApiResponse (Some (res_data res)) None (res_status res) true.

Definition errorResponse (err : Thrown) : ApiResponse :=
  mkApiResponse None (Some (handleError err)) (getErrorStatus err) false.

Section Service.

Variable net : Network.

(** [get(url, config, retries = 2)].  The test [retries > 0] is the match
    on [retries]; the call in the retry branch is to [this.get] itself, so
    it passes through [circuitBreaker.execute] again. *)
Fixpoint get (path : string) (retries : nat) {struct retries} : M ApiResponse :=
  tryCatch
    (response <- execute
       (tryCatch
          (res <- send net (mkRequest GET path None) ;;
           ret (okResponse res))
          (fun err =>
             match retries with
             | S remaining =>
                 if isRetryableError err then
                   sleep (1000 * (3 - Z.of_nat retries)) ;;
                   get path remaining
                 else throw err
             | O => throw err
             end)) ;;
     ret response)
    (fun err => ret (errorResponse err)).

(** [post(url, data, config, retries = 2)] *)
Fixpoint post (path : string) (payload : Payload) (retries : nat)
         {struct retries} : M ApiResponse :=
  tryCatch
    (response <- execute
       (tryCatch
          (res <- send net (mkRequest POST path (Some payload)) ;;
           ret (okResponse res))
          (fun err =>
             match retries with
             | S remaining =>
                 if isRetryableError err then
                   sleep (1000 * (3 - Z.of_nat retries)) ;;
                   post path payload remaining
                 else throw err
             | O => throw err
             end)) ;;
     ret response)
    (fun err => ret (errorResponse err)).

End Service.

(* ------------------------------------------------------------------ *)
(** * The service adapters

    The adapters extend the base class [ApiService] ([./api-service]); what
    they use of it is its [config.apiKey] and its [get], [post] and
    [handleError] methods, which an adapter receives here as [self]. *)

Record ApiService : Type := mkApiService {
  apiKey : option string;
  api_get : string -> M ApiResponse;
  api_post : string -> Payload -> M ApiResponse;
  api_handleError : Thrown -> ApiError
}.

(** A service object whose base class is [EnhancedApiService], called with
    the default [retries = 2]. *)
Definition enhancedService (net : Network) (key : option string) : ApiService :=
  mkApiService key
    (fun path => get net path 2)
    (fun path payload => post net path payload 2)
    handleError.

Definition authError (errorCode msg : string) : ApiResponse :=
  mkApiResponse None (Some (mkApiError errorCode msg NoDetails)) 401 false.

Definition caughtResponse (self : ApiService) (err : Thrown) : ApiResponse :=
  mkApiResponse None (Some (api_handleError self err)) 500 false.

(** [response.data] used as a condition. *)
Definition truthyData (d : option Payload) : bool :=
  match d with
  | Some (Json text) => negb (String.eqb text "")
  | Some _ => true
  | None => false
  end.

Module GrokService.

(** [getSuggestions(request)]; the request body is represented by the word
    it asks about. *)
Definition getSuggestions (self : ApiService) (word : string) : M ApiResponse :=
  if negb (truthyStr (apiKey self)) then
    ret (authError "GROK_AUTH_ERROR" "No API key provided for Grok AI")
  else
    tryCatch
      (response <- api_post self "/api/suggestions" (Json word) ;;
       ret response)
      (fun err => ret (caughtResponse self err)).

(** [getWordInfo(word)]; [encoded] is [encodeURIComponent(word)]. *)
Definition getWordInfo (self : ApiService) (encoded : string) : M ApiResponse :=
  if negb (truthyStr (apiKey self)) then
    ret (authError "GROK_AUTH_ERROR" "No API key provided for Grok AI")
  else api_get self ("/api/wordinfo/" ++ encoded).

End GrokService.

Module PerplexityService.

Definition query (self : ApiService) (text : string) : M ApiResponse :=
  if negb (truthyStr (apiKey self)) then
    ret (authError "PERPLEXITY_AUTH_ERROR" "No API key provided for Perplexity AI")
  else
    tryCatch
      (response <- api_post self "/api/query" (Json text) ;;
       ret response)
      (fun err => ret (caughtResponse self err)).

Definition getSources (self : ApiService) (queryId : string) : M ApiResponse :=
  if negb (truthyStr (apiKey self)) then
    ret (authError "PERPLEXITY_AUTH_ERROR" "No API key provided for Perplexity AI")
  else api_get self ("/api/sources/" ++ queryId).

End PerplexityService.

Module AnthropicService.

Section Decoding.

(** Reading Claude's reply: the [LanguageResponse] built from
    [content], [model] and [usage]; whether [data.content] is present;
    and [JSON.parse] of the first content block merged with [model] and
    [tokens], or the message of the parse error. *)
Variable toLanguageResponse : Payload -> Payload.
Variable hasContent : Payload -> bool.
Variable parseAnalysis : Payload -> Payload + string.

Definition query (self : ApiService) (text : string) : M ApiResponse :=
  if negb (truthyStr (apiKey self)) then
    ret (authError "ANTHROPIC_AUTH_ERROR" "No API key provided for Anthropic Claude")
  else
    tryCatch
      (response <- api_post self "/v1/messages" (Json text) ;;
       match data response with
       | Some claudeResponse =>
           if success response && truthyData (data response) then
             ret (mkApiResponse (Some (toLanguageResponse claudeResponse)) None
                                (status response) true)
           else ret response
       | None => ret response
       end)
      (fun err => ret (caughtResponse self err)).

Definition analyzeLanguage (self : ApiService) (text : string) : M ApiResponse :=
  if negb (truthyStr (apiKey self)) then
    ret (authError "ANTHROPIC_AUTH_ERROR" "No API key provided for Anthropic Claude")
  else
    tryCatch
      (response <- api_post self "/v1/messages" (Json text) ;;
       match data response with
       | Some claudeResponse =>
           if success response && truthyData (data response)
              && hasContent claudeResponse then
             match parseAnalysis claudeResponse with
             | inl analysis =>
                 ret (mkApiResponse (Some analysis) None (status response) true)
             | inr parseError =>
                 ret (mkApiResponse None
                        (Some (mkApiError "PARSE_ERROR"
                                 "Failed to parse Claude response as JSON"
                                 (TextDetails parseError)))
                        500 false)
             end
           else ret response
       | None => ret response
       end)
      (fun err => ret (caughtResponse self err)).

End Decoding.

End AnthropicService.

Module FluxService.

Record Fallback : Type := mkFallback {
  fallbackEnabled : bool;
  fallbackImages : list string;
  placeholderUrl : string
}.

Record ImageGenerationRequest : Type := mkImageRequest {
  prompt : string;
  enhance : option bool;      (* [enhancePrompt] *)
  style : option string
}.

Section Random.

(** [Math.floor(Math.random() * n)] at the [k]-th draw. *)
Variable randomIndex : nat -> nat -> nat.

Definition getFallbackImage (fb : Fallback) : M string :=
  if negb (fallbackEnabled fb) || (List.length (fallbackImages fb) =? 0)%nat then
    ret (placeholderUrl fb)
  else
    k <- gets draws ;;
    modify (fun w => mkWorld (breaker w) (clock w) (requests w) (notified w)
                             (S (draws w))) ;;
    ret (nth (randomIndex k (List.length (fallbackImages fb))) (fallbackImages fb)
             "undefined").

Definition createFallbackResponse (fb : Fallback) (basePrompt errorMessage : string)
  : M ApiResponse :=
  image <- getFallbackImage fb ;;
  ret (mkApiResponse
         (Some (ImageData image basePrompt
                  (Some (mkApiError "FALLBACK_USED" errorMessage NoDetails)) true))
         None 200 true).

Definition stylePrompts (name : string) : option string :=
  if String.eqb name "minimalist" then
    Some "minimalist style, elegant design, clean composition"
  else if String.eqb name "artistic" then
    Some "artistic, creative, expressive, vibrant colors"
  else if String.eqb name "realistic" then
    Some "photorealistic, detailed, lifelike, high-definition"
  else if String.eqb name "educational" then
    Some "educational, instructive, clear visualization, informative"
  else None.

Definition enhancePrompt (basePrompt styleName : string) : string :=
  let styleAddition :=
    match stylePrompts styleName with
    | Some s => s
    | None => "minimalist style, elegant design, clean composition"
    end in
  basePrompt ++ ", high quality, detailed, 4k, professional, " ++ styleAddition.

Definition generateImage (self : ApiService) (fb : Fallback)
           (request : ImageGenerationRequest) : M ApiResponse :=
  if negb (truthyStr (apiKey self)) then
    createFallbackResponse fb (prompt request) "No API token configured"
  else
    tryCatch
      (let sent :=
         match enhance request with
         | Some false => prompt request
         | _ => enhancePrompt (prompt request)
                  (match orStr (style request) (Some "minimalist") with
                   | Some s => s
                   | None => "minimalist"
                   end)
         end in
       response <- api_post self "/api/generate-image" (Json sent) ;;
       if negb (success response) && fallbackEnabled fb then
         createFallbackResponse fb (prompt request)
           (match orStr (option_map message (error response))
                        (Some "Failed to generate image") with
            | Some m => m
            | None => "Failed to generate image"
            end)
       else ret response)
      (fun err => createFallbackResponse fb (prompt request) (messageOf err)).

End Random.

End FluxService.

(* ------------------------------------------------------------------ *)
(** * Vocabulary of the statements *)

(** What [execute] does with the completion of the wrapped operation:
    report it to [onSuccess] or to [onFailure], then pass it on. *)
Definition observe {A} (x : Completion A * World) : Completion A * World :=
  match x with
  | (Normal r, w) => (Normal r, snd (onSuccess w))
  | (Abrupt e, w) => (Abrupt e, snd (onFailure (asError e) w))
  end.

(** An operation that fails whenever it is run and does not touch the
    breaker. *)
Definition failsOutside {A} (fn : M A) : Prop :=
  forall w, exists e w', fn w = (Abrupt e, w') /\ breaker w' = breaker w.

(** Running a series of operations through [execute], one after the other. *)
Definition executeAll {A} (ops : list (M A)) (w : World) : World :=
  fold_left (fun acc fn => snd (execute fn acc)) ops w.

(** The threshold invariant, for a breaker configured with thresholds of at
    least one. *)
Definition thresholdsOk (b : CircuitBreaker) : Prop :=
  1 <= failureThreshold (options b) /\ 1 <= successThreshold (options b).

Definition belowThresholds (b : CircuitBreaker) : Prop :=
  (state b = CLOSED -> failureCount b < failureThreshold (options b)) /\
  (state b = HALF_OPEN -> successCount b < successThreshold (options b)).

Definition wellFormed (w : World) : Prop :=
  thresholdsOk (breaker w) /\ belowThresholds (breaker w).

(** Whether [execute] lets a call through in world [w]. *)
Definition admits (w : World) : bool :=
  negb (state_eqb (state (breaker w)) OPEN) || (clock w >? nextAttempt (breaker w)).

(** The world in which an admitted operation starts: half-open when the
    breaker was open, unchanged otherwise. *)
Definition entered (w : World) : World :=
  if state_eqb (state (breaker w)) OPEN then snd (toHalfOpen w) else w.

(** The common body of [get] and [post], with [again] standing for the
    recursive call: [attempt] is the function handed to the breaker,
    [callOnce] the whole method body for request [rq]. *)
Definition attempt (net : Network) (rq : Request) (retries : nat)
           (again : M ApiResponse) : M ApiResponse :=
  tryCatch
    (res <- send net rq ;;
     ret (okResponse res))
    (fun err =>
       if (0 <? retries)%nat && isRetryableError err then
         sleep (1000 * (3 - Z.of_nat retries)) ;;
         again
       else throw err).

Definition callOnce (net : Network) (rq : Request) (retries : nat)
           (again : M ApiResponse) : M ApiResponse :=
  tryCatch
    (response <- execute (attempt net rq retries again) ;;
     ret response)
    (fun err => ret (errorResponse err)).

(** The world once a request has been sent and settled after [ms]
    milliseconds. *)
Definition afterRequest (ms : nat) (w : World) : World :=
  mkWorld (breaker w) (clock w + Z.of_nat ms) (S (requests w)) (notified w) (draws w).

(* ------------------------------------------------------------------ *)
(** * Sample inputs *)

Module Sample.

(** [failureThreshold = 3], [successThreshold = 2], [timeout = 1000]. *)
Definition opts : CircuitBreakerOptions := mkOptions 3 2 1000.

Definition worldOf (b : CircuitBreaker) (now : Z) : World :=
  mkWorld b now 0 [] 0.

(** A new breaker at time zero. *)
Definition fresh : World := worldOf (newCircuitBreaker opts) 0.

Definition http (st : Z) : Thrown :=
  AxiosError (Some st) None None
    ("Request failed with status code " ++ showNum (Some st)).

(** A network on which every request is answered with HTTP status [st]
    after 10 ms. *)
Definition alwaysStatus (st : Z) : Network :=
  fun _ _ => (Rejected (http st), 10%nat).

(** A network on which every request succeeds after 10 ms. *)
Definition healthy : Network :=
  fun _ _ => (Resolved (mkAxiosResponse (Json "{}") 200), 10%nat).

Definition ping : Request := mkRequest GET "/ping" None.

(** An open breaker that may be tried again at time 1000. *)
Definition tripped : CircuitBreaker :=
  mkBreaker OPEN 3 0 1000 (Some (http 500)) opts.


(** The open breaker before, at and after the instant [nextAttempt]. *)
Definition trippedBefore : World := worldOf tripped 400.
Definition trippedAt : World := worldOf tripped 1000.
Definition trippedAfter : World := worldOf tripped 1001.


(** Image fallbacks as [AI_CONFIG.replicate.fallback] lists them. *)
Definition fallback : FluxService.Fallback :=
  FluxService.mkFallback true
    ["/fallback/language-1.svg"; "/fallback/language-2.svg";
     "/fallback/language-3.svg"]
    "/fallback/image-placeholder.svg".

Definition imageRequest : FluxService.ImageGenerationRequest :=
  FluxService.mkImageRequest "a lighthouse" None None.

(** A random source that always picks the first element. *)
Definition firstIndex : nat -> nat -> nat := fun _ _ => 0%nat.

(** An Axios error without a response: the request timed out. *)
Definition timedOut : Thrown :=
  AxiosError None (Some "ECONNABORTED") None "timeout of 15000ms exceeded".

(** Operations on the wire. *)
Definition failing (st : Z) : M AxiosResponse := send (alwaysStatus st) ping.
Definition succeeding : M AxiosResponse := send healthy ping.

(** The scenario of a breaker that opens and recovers: three failed
    calls, a wait, then successful calls. *)
Definition afterThreeFailures : World :=
executeAll [failing 500; failing 500; failing 500] fresh.
Definition waited (ms : Z) : World := snd (sleep ms afterThreeFailures).
Definition afterFirstProbe : World := snd (execute succeeding (waited 1001)).
Definition afterSecondProbe : World := snd (execute succeeding afterFirstProbe).

End Sample.

(* ------------------------------------------------------------------ *)
(** * Environment variables (lib/env.ts)

    An [Env] holds the variables that are set: the own properties of
    [process.env], each a string.  Reading [process.env[key]] for a name
    that is not set falls through to [Object.prototype], as for any object:
    [processEnv] gives the inherited member for such a name.  Console
    output is not modelled.  Letter case is that of ASCII. *)

Definition Env : Type := string -> option string.

(** The members that every object inherits from [Object.prototype]. *)
Definition inheritedNames : list string :=
  ["constructor"; "toString"; "toLocaleString"; "valueOf"; "hasOwnProperty";
   "isPrototypeOf"; "propertyIsEnumerable"; "__proto__"; "__defineGetter__";
   "__defineSetter__"; "__lookupGetter__"; "__lookupSetter__"].

Definition inherited (key : string) : bool :=
  existsb (String.eqb key) inheritedNames.

(** What [process.env[key]] can be: nothing, a string, or a member of
    [Object.prototype] (a function, or the prototype object itself). *)
Inductive EnvValue : Type :=
| EnvUndefined
| EnvString (value : string)
| EnvInherited (name : string).

(** [process.env[key]] *)
Definition processEnv (env : Env) (key : string) : EnvValue :=
  match env key with
  | Some value => EnvString value
  | None => if inherited key then EnvInherited key else EnvUndefined
  end.

(** [!!v]: functions and objects are truthy. *)
Definition truthyEnv (v : EnvValue) : bool :=
  match v with
  | EnvUndefined => false
  | EnvString value => negb (String.eqb value "")
  | EnvInherited _ => true
  end.

(** An optional string as a value. *)
Definition ofOption (d : option string) : EnvValue :=
  match d with Some value => EnvString value | None => EnvUndefined end.

Definition lowerAscii (c : Ascii.ascii) : Ascii.ascii :=
  let n := Ascii.nat_of_ascii c in
  if ((65 <=? n) && (n <=? 90))%nat then Ascii.ascii_of_nat (n + 32) else c.

(** [s.toLowerCase()] *)
Fixpoint toLowerCase (s : string) : string :=
  match s with
  | EmptyString => EmptyString
  | String c rest => String (lowerAscii c) (toLowerCase rest)
  end.

(** [s.includes(sub)] *)
Fixpoint includes (sub s : string) : bool :=
  String.prefix sub s ||
  match s with
  | EmptyString => false
  | String _ rest => includes sub rest
  end.

Module EnvUtil.

(** [getEnv(key, defaultValue, required = false)]; the result is
    [value || defaultValue]. *)
Definition getEnv (env : Env) (key : string) (defaultValue : option string)
           (required : bool) : Completion EnvValue :=
  let value := processEnv env key in
  if required && negb (truthyEnv value) && negb (truthyStr defaultValue) then
    Abrupt (JsError ("Required environment variable " ++ key ++ " is missing"))
  else Normal (if truthyEnv value then value else ofOption defaultValue).

(** [getBoolEnv(key, defaultValue = false)]; calling [toLowerCase] on a
    value that is not a string raises a [TypeError]. *)
Definition getBoolEnv (env : Env) (key : string) (defaultValue : bool)
  : Completion bool :=
  match getEnv env key None false with
  | Abrupt e => Abrupt e
  | Normal EnvUndefined => Normal defaultValue
  | Normal (EnvString value) => Normal (String.eqb (toLowerCase value) "true")
  | Normal (EnvInherited _) => Abrupt (JsError "value.toLowerCase is not a function")
  end.

(** [getRequiredEnv(key)] *)
Definition getRequiredEnv (env : Env) (key : string) : Completion EnvValue :=
  match getEnv env key None true with
  | Abrupt e => Abrupt e
  | Normal value =>
      if negb (truthyEnv value) then
        Abrupt (JsError ("Required environment variable " ++ key ++ " is missing"))
      else Normal value
  end.

End EnvUtil.

(* ------------------------------------------------------------------ *)
(** * The environment validator (lib/env-validator.ts) *)

Module EnvValidator.

Inductive ServiceKey : Type := replicate | perplexity | grok | anthropic.

Definition key_eqb (a b : ServiceKey) : bool :=
  match a, b with
  | replicate, replicate | perplexity, perplexity
  | grok, grok | anthropic, anthropic => true
  | _, _ => false
  end.

Definition keyName (k : ServiceKey) : string :=
  match k with
  | replicate => "replicate"
  | perplexity => "perplexity"
  | grok => "grok"
  | anthropic => "anthropic"
  end.

Definition REQUIRED_ENV_VARS (k : ServiceKey) : list string :=
  match k with
  | replicate => ["REPLICATE_API_TOKEN"; "REPLICATE_FLUX_MODEL"]
  | perplexity => ["PERPLEXITY_API_KEY"]
  | grok => ["GROK_API_KEY"]
  | anthropic => ["ANTHROPIC_API_KEY"]
  end.

(** [Object.keys(REQUIRED_ENV_VARS)] *)
Definition allServices : list ServiceKey := [replicate; perplexity; grok; anthropic].

(** [!process.env[varName]] *)
Definition unset (env : Env) (varName : string) : bool :=
  negb (truthyEnv (processEnv env varName)).

Record ServiceValidation : Type := mkServiceValidation {
  valid : bool;
  missing : list string;
  serviceName : ServiceKey
}.

Definition validateServiceEnv (env : Env) (service : ServiceKey) : ServiceValidation :=
  let requiredVars := REQUIRED_ENV_VARS service in
  let missingVars := filter (unset env) requiredVars in
  mkServiceValidation (List.length missingVars =? 0)%nat missingVars service.

(** A [Record<string, string[]>] keyed by service, in insertion order. *)
Definition MissingMap : Type := list (ServiceKey * list string).

(** [result[service] = vars] *)
Fixpoint assignKey (result : MissingMap) (service : ServiceKey) (vars : list string)
  : MissingMap :=
  match result with
  | [] => [(service, vars)]
  | (k, v) :: rest =>
      if key_eqb k service then (k, vars) :: rest
      else (k, v) :: assignKey rest service vars
  end.

(** [result[service]] *)
Fixpoint lookupKey (result : MissingMap) (service : ServiceKey) : option (list string) :=
  match result with
  | [] => None
  | (k, v) :: rest => if key_eqb k service then Some v else lookupKey rest service
  end.

Record EnvValidation : Type := mkEnvValidation {
  allValid : bool;
  allMissing : MissingMap
}.

(** The loop of [validateEnv] over the services still to validate. *)
Fixpoint validateLoop (env : Env) (services : list ServiceKey) (acc : EnvValidation)
  : EnvValidation :=
  match services with
  | [] => acc
  | service :: rest =>
      let validation := validateServiceEnv env service in
      validateLoop env rest
        (if negb (valid validation)
         then mkEnvValidation false
                (assignKey (allMissing acc) service (missing validation))
         else acc)
  end.

(** [validateEnv(services?)] *)
Definition validateEnv (env : Env) (services : option (list ServiceKey)) : EnvValidation :=
  let servicesToValidate :=
    match services with Some l => l | None => allServices end in
  validateLoop env servicesToValidate (mkEnvValidation true []).

(** [process.env.NODE_ENV === 'production'] *)
Definition inProduction (env : Env) : bool :=
  match processEnv env "NODE_ENV" with
  | EnvString value => String.eqb value "production"
  | _ => false
  end.

(** [JSON.stringify] of a list of variable names and of the missing map
    (the names contain nothing that needs escaping). *)
Definition quote : string := String (Ascii.ascii_of_nat 34) EmptyString.

Definition quoted (name : string) : string := quote ++ name ++ quote.

Definition stringifyNames (names : list string) : string :=
  "[" ++ String.concat "," (map quoted names) ++ "]".

Definition stringifyMissing (m : MissingMap) : string :=
  "{" ++ String.concat ","
           (map (fun kv => quoted (keyName (fst kv)) ++ ":" ++ stringifyNames (snd kv)) m)
      ++ "}".

(** [validateEnvOrThrow(throwInProduction = true)] *)
Definition validateEnvOrThrow (env : Env) (throwInProduction : bool) : Completion unit :=
  let result := validateEnv env None in
  if negb (allValid result) && (inProduction env && throwInProduction) then
    Abrupt (JsError ("Missing required environment variables: "
                     ++ stringifyMissing (allMissing result)))
  else Normal tt.

Definition API_KEYS : list string :=
  ["REPLICATE_API_TOKEN"; "PERPLEXITY_API_KEY"; "GROK_API_KEY"; "ANTHROPIC_API_KEY"].

Definition REQUIRED_VARS : list string := ["NEXT_PUBLIC_APP_URL"].

(** The [forEach] over [REQUIRED_VARS]: the first failure is rethrown. *)
Fixpoint checkRequired (env : Env) (keys : list string) : Completion unit :=
  match keys with
  | [] => Normal tt
  | key :: rest =>
      match EnvUtil.getEnv env key None true with
      | Abrupt e => Abrupt e
      | Normal value =>
          if negb (truthyEnv value) then
            Abrupt (JsError ("Required environment variable " ++ key ++ " is missing"))
          else checkRequired env rest
      end
  end.

(** [validateEnvironment(strict = false)] *)
Definition validateEnvironment (env : Env) (strict : bool) : Completion unit :=
  match checkRequired env REQUIRED_VARS with
  | Abrupt e => Abrupt e
  | Normal _ =>
      let missingApiKeys := filter (unset env) API_KEYS in
      if (0 <? List.length missingApiKeys)%nat then
        if inProduction env && strict then
          Abrupt (JsError ("Missing required API keys in production: "
                           ++ String.concat ", " missingApiKeys))
        else Normal tt
      else Normal tt
  end.

(** [validateRuntimeEnvironment()] *)
Definition validateRuntimeEnvironment (env : Env) : Completion unit :=
  match validateEnvironment env (inProduction env) with
  | Normal u => Normal u
  | Abrupt e => if negb (inProduction env) then Normal tt else Abrupt e
  end.

End EnvValidator.

(* ------------------------------------------------------------------ *)
(** * EnhancedApiService: construction and logging helpers *)

(** [getServiceKeyFromName()] *)
Definition getServiceKeyFromName (serviceName : string) : option EnvValidator.ServiceKey :=
  let name := toLowerCase serviceName in
  if includes "flux" name || includes "replicate" name then Some EnvValidator.replicate
  else if includes "perplexity" name then Some EnvValidator.perplexity
  else if includes "grok" name then Some EnvValidator.grok
  else if includes "anthropic" name || includes "claude" name
  then Some EnvValidator.anthropic
  else None.

(** What the constructor stores: the name, the API key of the
    configuration, the outcome of the environment check and the breaker. *)
Record EnhancedApiService : Type := mkEnhancedApiService {
  service_name : string;
  config_apiKey : option string;
  isEnvironmentValid : bool;
  missingEnvVars : list string;
  circuitBreaker : CircuitBreaker
}.

(** [new EnhancedApiService(serviceName, config)] *)
Definition newEnhancedApiService (env : Env) (serviceName : string)
           (key : option string) (cfg : option CircuitBreakerConfig)
  : EnhancedApiService :=
  let b := newCircuitBreaker (serviceBreakerOptions cfg) in
  match getServiceKeyFromName serviceName with
  | Some serviceKey =>
      let validation := EnvValidator.validateServiceEnv env serviceKey in
      mkEnhancedApiService serviceName key (EnvValidator.valid validation)
                           (EnvValidator.missing validation) b
  | None => mkEnhancedApiService serviceName key true [] b
  end.

(** [isConfigured()] *)
Definition isConfigured (self : EnhancedApiService) : bool :=
  isEnvironmentValid self && truthyStr (config_apiKey self).

(** JSON-like values as they are logged. *)
#[warnings="-register-all"]
Inductive JsValue : Type :=
| JUndefined
| JNull
| JBool (b : bool)
| JNum (n : Z)
| JStr (s : string)
| JArr (items : list JsValue)
| JObj (fields : list (string * JsValue)).

(** [!!v] *)
Definition truthyValue (v : JsValue) : bool :=
  match v with
  | JUndefined | JNull => false
  | JBool b => b
  | JNum n => negb (n =? 0)
  | JStr s => negb (String.eqb s "")
  | JArr _ | JObj _ => true
  end.

Definition indexKey (i : nat) : string := NilZero.string_of_uint (Nat.to_uint i).

Fixpoint indexed {A} (i : nat) (l : list A) : list (string * A) :=
  match l with
  | [] => []
  | x :: rest => (indexKey i, x) :: indexed (S i) rest
  end.

Fixpoint characters (s : string) : list JsValue :=
  match s with
  | EmptyString => []
  | String c rest => JStr (String c EmptyString) :: characters rest
  end.

(** The own enumerable properties copied by [{ ...data }]. *)
Definition spread (data : JsValue) : list (string * JsValue) :=
  match data with
  | JObj fields => fields
  | JArr items => indexed 0 items
  | JStr s => indexed 0 (characters s)
  | _ => []
  end.

(** [obj[field]] *)
Fixpoint getField (fields : list (string * JsValue)) (field : string) : JsValue :=
  match fields with
  | [] => JUndefined
  | (k, v) :: rest => if String.eqb k field then v else getField rest field
  end.

(** [obj[field] = v] for a field the object already has. *)
Fixpoint setField (fields : list (string * JsValue)) (field : string) (v : JsValue)
  : list (string * JsValue) :=
  match fields with
  | [] => [(field, v)]
  | (k, old) :: rest =>
      if String.eqb k field then (k, v) :: rest
      else (k, old) :: setField rest field v
  end.

(** [typeof v !== 'undefined'] *)
Definition defined (v : JsValue) : bool :=
  match v with JUndefined => false | _ => true end.

Definition sensitiveFields : list string :=
  ["apiKey"; "password"; "token"; "secret"; "Authorization"; "auth"; "key"].

Definition redacted : JsValue := JStr "[REDACTED]".

Definition redactField (sanitized : list (string * JsValue)) (field : string)
  : list (string * JsValue) :=
  if defined (getField sanitized field)
  then setField sanitized field redacted
  else sanitized.

(** [sanitizeLogData(data)] *)
Definition sanitizeLogData (data : JsValue) : JsValue :=
  if negb (truthyValue data) then data
  else JObj (fold_left redactField sensitiveFields (spread data)).

(* ------------------------------------------------------------------ *)
(** * The route /api/analyze-language (app/api/analyze-language/route.ts) *)

Module AnalyzeLanguageRoute.

(** What [NextResponse.json(body, { status })] carries. *)
Inductive Body : Type :=
| ErrorBody (errorText : string) (errorCode details : option string)
| DataBody (payload : option Payload).

Record HttpResponse : Type := mkHttpResponse {
  http_status : Z;
  http_body : Body
}.

(** [JSON.stringify(body) !== undefined]: only [result.data] can be
    [undefined]; the error bodies are objects. *)
Definition serializable (body : Body) : bool :=
  match body with
  | DataBody None => false
  | _ => true
  end.

(** The statuses of a response that cannot have a body; 101 and 103 are
    among them and are already below 200. *)
Definition isNullBodyStatus (status : Z) : bool :=
  existsb (Z.eqb status) [101; 103; 204; 205; 304].


Section Handler.

(** The Anthropic adapter's [analyzeLanguage], and the message of the
    [TypeError] raised when the parsed body is [null] and cannot be
    destructured. *)
Variable analyzeLanguage : string -> M ApiResponse.
Variable cannotDestructure : string.

(** The runtime's part in [Response.json], on which [NextResponse.json]
    is built: the conversion of [init.status] to an [unsigned short], and
    the messages of the [TypeError] for a body that does not serialize, of
    the [RangeError] for a status outside 200..599 and of the [TypeError]
    for a body given with a null-body status. *)
Variable toUnsignedShort : Z -> Z.
Variable notSerializable : string.
Variable statusOutOfRange : string.
Variable bodyNotAllowed : Z -> string.

(** [NextResponse.json(body, { status })] *)
Definition NextResponse_json (body : Body) (status : Z) : M HttpResponse :=
  let status := toUnsignedShort status in
  if negb (serializable body) then throw (JsError notSerializable)
  else if (status <? 200) || (599 <? status) then throw (JsError statusOutOfRange)
  else if isNullBodyStatus status then throw (JsError (bodyNotAllowed status))
  else ret (mkHttpResponse status body).

(** [const { text } = value] *)
Definition destructureText (value : JsValue) : M JsValue :=
  match value with
  | JUndefined | JNull => throw (JsError cannotDestructure)
  | JObj fields => ret (getField fields "text")
  | _ => ret JUndefined
  end.

Definition invalidText : Body :=
  ErrorBody "Invalid text. Please provide a word or phrase to analyze." None None.

(** The body of the answer to a failed analysis. *)
Definition failureBody (result : ApiResponse) : Body :=
  ErrorBody
    (match orStr (option_map message (error result))
                 (Some "Failed to analyze language") with
     | Some m => m
     | None => "Failed to analyze language"
     end)
    (orStr (option_map code (error result)) (Some "UNKNOWN_ERROR"))
    None.

(** [POST(request)]; [parsed] is what [await request.json()] gives, a value
    or the error of a body that is not JSON. *)
Definition POST (parsed : M JsValue) : M HttpResponse :=
  tryCatch
    (value <- parsed ;;
     text <- destructureText value ;;
     match text with
     | JStr t =>
         if negb (truthyValue text) then NextResponse_json invalidText 400
         else
           result <- analyzeLanguage t ;;
           if negb (success result)
              || match error result with Some _ => true | None => false end
           then
             NextResponse_json (failureBody result)
               (if truthyNum (Some (status result)) then status result else 500)
           else NextResponse_json (DataBody (data result)) 200
     | _ => NextResponse_json invalidText 400
     end)
    (fun err =>
       NextResponse_json
         (ErrorBody "Internal server error" None (Some (messageOf err))) 500).

End Handler.

End AnalyzeLanguageRoute.

(* ------------------------------------------------------------------ *)
(** * Further vocabulary: the breaker over its lifetime *)

(** An operation that succeeds whenever it is run and does not touch the
    breaker. *)
Definition succeedsOutside {A} (fn : M A) : Prop :=
  forall w, exists r w', fn w = (Normal r, w') /\ breaker w' = breaker w.

(** Following a list of reported state changes from state [s]: every report
    must start from the state reached so far and lead to a different one. *)
Fixpoint replay (s : CircuitBreakerState)
         (log : list (CircuitBreakerState * CircuitBreakerState))
  : option CircuitBreakerState :=
  match log with
  | [] => Some s
  | (from, to) :: rest =>
      if state_eqb from s && negb (state_eqb from to) then replay to rest else None
  end.

(** The reports received so far account for the breaker's current state. *)
Definition tracked (w : World) : Prop :=
  replay CLOSED (notified w) = Some (state (breaker w)).

(** The shape of a breaker that started as [new CircuitBreaker(options)]
    with integer thresholds of at least one: [successCount] is zero outside
    HALF_OPEN, [failureCount] sits at the threshold outside CLOSED, and a
    breaker that is not CLOSED remembers the error that opened it. *)
Definition settled (b : CircuitBreaker) : Prop :=
  1 <= failureThreshold (options b) /\
  1 <= successThreshold (options b) /\
  0 <= failureCount b <= failureThreshold (options b) /\
  0 <= successCount b < successThreshold (options b) /\
  (state b <> HALF_OPEN -> successCount b = 0) /\
  (state b <> CLOSED -> failureCount b = failureThreshold (options b)) /\
  (state b = CLOSED -> failureCount b < failureThreshold (options b)) /\
  (state b <> CLOSED -> lastError b <> None).

(** A response carries either data or an error, as [success] says. *)
Definition wellShaped (r : ApiResponse) : Prop :=
  if success r then data r <> None /\ error r = None
  else data r = None /\ error r <> None.

(** The time taken by the [k] requests numbered [n], [n + 1], ... *)
Fixpoint elapsed (net : Network) (rq : Request) (n k : nat) : Z :=
  match k with
  | O => 0
  | S k' => Z.of_nat (snd (net rq n)) + elapsed net rq (S n) k'
  end.

(** The time spent waiting between the attempts of a call that starts with
    [r] retries and uses them all. *)
Fixpoint backoff (r : nat) : Z :=
  match r with
  | O => 0
  | S r' => Z.max 0 (1000 * (3 - Z.of_nat r)) + backoff r'
  end.

(** More sample inputs. *)
Module Scenario.

(** A half-open breaker that has not yet seen a success. *)
Definition halfOpen : World :=
  Sample.worldOf (mkBreaker HALF_OPEN 3 0 1000 (Some (Sample.http 500)) Sample.opts) 1500.

(** A closed breaker that has seen two failures in a row. *)
Definition twoStrikes : World :=
  Sample.worldOf (mkBreaker CLOSED 2 0 0 (Some (Sample.http 500)) Sample.opts) 50.

End Scenario.

(* ------------------------------------------------------------------ *)
(** * Basic facts about the breaker's methods *)

Ltac unfold_breaker :=
  unfold onSuccess, onFailure, toOpen, toHalfOpen, reset, changeState,
         onStateChange, Date_now, this, assign, bind, tryCatch, ret, throw,
         gets, modify, withBreaker.

Lemma state_eqb_spec a b : reflect (a = b) (state_eqb a b).
Proof. destruct a, b; constructor; congruence. Qed.

Ltac open_world w :=
  let b := fresh "b" in
  let st := fresh "st" in
  let fc := fresh "fc" in
  let sc := fresh "sc" in
  let opts := fresh "opts" in
  destruct w as [b ? ? ? ?]; destruct b as [st fc sc ? ? opts]; cbn in *.

Lemma onSuccess_returns w : onSuccess w = (Normal tt, snd (onSuccess w)).
Proof.
  open_world w. unfold_breaker. destruct st; cbn; try reflexivity.
  destruct (_ >=? _); reflexivity.
Qed.

Lemma onFailure_returns e w : onFailure e w = (Normal tt, snd (onFailure e w)).
Proof.
  open_world w. unfold_breaker. destruct st; cbn; try reflexivity.
  destruct (_ >=? _); reflexivity.
Qed.

Lemma toHalfOpen_returns w : toHalfOpen w = (Normal tt, snd (toHalfOpen w)).
Proof. open_world w. unfold_breaker. destruct st; reflexivity. Qed.

Lemma execute_rejects {A} (fn : M A) w :
  state (breaker w) = OPEN ->
  clock w <= nextAttempt (breaker w) ->
  execute fn w =
    (Abrupt (JsError (circuitOpenMessage (lastError (breaker w)))), w).
Proof.
  intros Hs Hc. unfold execute. unfold_breaker. rewrite Hs. simpl.
  destruct (clock w >? nextAttempt (breaker w)) eqn:E.
  - apply Z.gtb_lt in E. lia.
  - reflexivity.
Qed.

Lemma observe_execute_body {A} (fn : M A) w :
  tryCatch (result <- fn ;; onSuccess ;; ret result)
           (fun error => onFailure (asError error) ;; throw error) w
  = observe (fn w).
Proof.
  unfold tryCatch, bind, observe.
  destruct (fn w) as [[r | e] w'].
  - rewrite onSuccess_returns. reflexivity.
  - rewrite onFailure_returns. reflexivity.
Qed.

Lemma execute_probes {A} (fn : M A) w :
  state (breaker w) = OPEN ->
  clock w > nextAttempt (breaker w) ->
  execute fn w = observe (fn (snd (toHalfOpen w))).
Proof.
  intros Hs Hc. rewrite <- observe_execute_body.
  unfold execute. unfold bind at 1 2. unfold this at 1. unfold gets at 1.
  rewrite Hs. simpl.
  unfold bind at 1 2 3. unfold Date_now, this, gets. simpl.
  destruct (clock w >? nextAttempt (breaker w)) eqn:E.
  - rewrite toHalfOpen_returns. reflexivity.
  - rewrite Z.gtb_ltb, Z.ltb_ge in E. lia.
Qed.

Lemma execute_passes {A} (fn : M A) w :
  state (breaker w) <> OPEN ->
  execute fn w = observe (fn w).
Proof.
  intros Hs. rewrite <- observe_execute_body.
  unfold execute. unfold bind at 1 2. unfold this at 1. unfold gets at 1.
  destruct (state (breaker w)); try congruence; reflexivity.
Qed.

Lemma admits_rejects {A} (fn : M A) w :
  admits w = false ->
  execute fn w =
    (Abrupt (JsError (circuitOpenMessage (lastError (breaker w)))), w).
Proof.
  unfold admits. intros H. apply orb_false_elim in H as [Hs Hc].
  apply negb_false_iff in Hs.
  destruct (state_eqb_spec (state (breaker w)) OPEN) as [Hs'|]; [|discriminate].
  apply execute_rejects; [assumption|].
  rewrite Z.gtb_ltb, Z.ltb_ge in Hc. exact Hc.
Qed.

Lemma admits_enters {A} (fn : M A) w :
  admits w = true ->
  execute fn w = observe (fn (entered w)).
Proof.
  unfold admits, entered. intros H.
  destruct (state_eqb_spec (state (breaker w)) OPEN) as [Hs|Hs].
  - cbn in H. apply execute_probes; [assumption|].
    rewrite Z.gtb_ltb, Z.ltb_lt in H. lia.
  - apply execute_passes. assumption.
Qed.

Lemma observe_fst {A} (x : Completion A * World) : fst (observe x) = fst x.
Proof. destruct x as [[r|e] w]; reflexivity. Qed.

Lemma onSuccess_frame w :
  let w' := snd (onSuccess w) in
  clock w' = clock w /\ requests w' = requests w /\ draws w' = draws w /\
  options (breaker w') = options (breaker w).
Proof.
  open_world w. unfold_breaker. destruct st; cbn; auto.
  destruct (_ >=? _); cbn; auto.
Qed.

Lemma onFailure_frame e w :
  let w' := snd (onFailure e w) in
  clock w' = clock w /\ requests w' = requests w /\ draws w' = draws w /\
  options (breaker w') = options (breaker w).
Proof.
  open_world w. unfold_breaker. destruct st; cbn; auto.
  destruct (_ >=? _); cbn; auto.
Qed.

Lemma observe_frame {A} (x : Completion A * World) :
  let w' := snd (observe x) in
  clock w' = clock (snd x) /\ requests w' = requests (snd x) /\
  draws w' = draws (snd x) /\
  options (breaker w') = options (breaker (snd x)).
Proof.
  destruct x as [[r|e] w]; cbn; [apply onSuccess_frame | apply onFailure_frame].
Qed.

Lemma entered_frame w :
  clock (entered w) = clock w /\ requests (entered w) = requests w /\
  draws (entered w) = draws w /\
  options (breaker (entered w)) = options (breaker w).
Proof.
  unfold entered. open_world w. unfold_breaker. destruct st; cbn; auto.
Qed.

Lemma onSuccess_wellFormed w : wellFormed w -> wellFormed (snd (onSuccess w)).
Proof.
  unfold wellFormed, thresholdsOk, belowThresholds.
  open_world w. unfold_breaker. destruct st; cbn; try tauto.
  - intros [[? ?] [? ?]]. repeat split; auto; try discriminate. lia.
  - destruct (Z.geb_spec (sc + 1) (successThreshold opts)); cbn.
    + intros [[? ?] [? ?]]. repeat split; auto; try discriminate. lia.
    + intros [[? ?] [? ?]]. repeat split; auto; try discriminate.
Qed.

Lemma onFailure_wellFormed e w : wellFormed w -> wellFormed (snd (onFailure e w)).
Proof.
  unfold wellFormed, thresholdsOk, belowThresholds.
  open_world w. unfold_breaker. destruct st; cbn; try tauto.
  - destruct (Z.geb_spec (fc + 1) (failureThreshold opts)); cbn.
    + intros [[? ?] [? ?]]. repeat split; auto; discriminate.
    + intros [[? ?] [? ?]]. repeat split; auto; discriminate.
  - intros [[? ?] [? ?]]. repeat split; auto; discriminate.
Qed.

Lemma observe_wellFormed {A} (x : Completion A * World) :
  wellFormed (snd x) -> wellFormed (snd (observe x)).
Proof.
  destruct x as [[r|e] w]; cbn;
    [apply onSuccess_wellFormed | apply onFailure_wellFormed].
Qed.

Lemma entered_wellFormed w : wellFormed w -> wellFormed (entered w).
Proof.
  unfold entered, wellFormed, thresholdsOk, belowThresholds.
  open_world w. unfold_breaker. destruct st; cbn; try tauto.
  intros [[? ?] [? ?]]. repeat split; auto; try discriminate. lia.
Qed.

Lemma reset_wellFormed w : thresholdsOk (breaker w) -> wellFormed (snd (reset w)).
Proof.
  unfold wellFormed, thresholdsOk, belowThresholds.
  open_world w. unfold_breaker. destruct st; cbn;
    intros [? ?]; repeat split; auto; try discriminate; lia.
Qed.

Lemma execute_wellFormed {A} (fn : M A) w :
  (forall v, wellFormed v -> wellFormed (snd (fn v))) ->
  wellFormed w -> wellFormed (snd (execute fn w)).
Proof.
  intros Hfn Hw. destruct (admits w) eqn:E.
  - rewrite (admits_enters fn w E).
    apply observe_wellFormed, Hfn, entered_wellFormed, Hw.
  - rewrite (admits_rejects fn w E). exact Hw.
Qed.

(** One failed execution while closed. *)
Lemma closed_failure {A} (fn : M A) w :
  failsOutside fn ->
  state (breaker w) = CLOSED ->
  let w' := snd (execute fn w) in
  options (breaker w') = options (breaker w) /\
  if failureCount (breaker w) + 1 >=? failureThreshold (options (breaker w))
  then state (breaker w') = OPEN /\
       nextAttempt (breaker w') = clock w' + timeout (options (breaker w')) /\
       successCount (breaker w') = 0
  else state (breaker w') = CLOSED /\
       failureCount (breaker w') = failureCount (breaker w) + 1.
Proof.
  intros Hfn Hs. cbn zeta.
  rewrite execute_passes by congruence.
  destruct (Hfn w) as (e & w1 & Hrun & Hb). rewrite Hrun. cbn.
  rewrite <- Hb. rewrite <- Hb in Hs. clear Hrun Hb w.
  open_world w1. subst st. unfold_breaker. cbn.
  destruct (_ >=? _); cbn; auto.
Qed.

Lemma closed_failures_accumulate {A} (ops : list (M A)) :
  Forall failsOutside ops ->
  forall w,
    state (breaker w) = CLOSED ->
    failureCount (breaker w) + Z.of_nat (List.length ops)
      < failureThreshold (options (breaker w)) ->
    let w' := executeAll ops w in
    state (breaker w') = CLOSED /\
    failureCount (breaker w') = failureCount (breaker w) + Z.of_nat (List.length ops) /\
    options (breaker w') = options (breaker w).
Proof.
  induction 1 as [|fn ops Hfn Hops IH]; intros w Hs Hlt.
  - cbn. repeat split; auto. lia.
  - cbn [executeAll fold_left]. cbn [List.length] in Hlt.
    rewrite Nat2Z.inj_succ in Hlt.
    pose proof (closed_failure fn w Hfn Hs) as [Ho Hstep].
    destruct (Z.geb_spec (failureCount (breaker w) + 1)
                         (failureThreshold (options (breaker w)))); [lia|].
    destruct Hstep as [Hs' Hf'].
    specialize (IH (snd (execute fn w)) Hs').
    rewrite Hf', Ho in IH. specialize (IH ltac:(lia)).
    destruct IH as (? & ? & ?). fold (executeAll ops (snd (execute fn w))).
    cbn [List.length]. rewrite Nat2Z.inj_succ. repeat split; auto. lia.
Qed.

(* ------------------------------------------------------------------ *)
(** * The circuit breaker's contract *)

(** The recovery scenario with [failureThreshold = 3], [successThreshold = 2]
    and [timeout = 1000]: three failures open the circuit at time 30 with
    [nextAttempt = 1030]; a call made at once is rejected without a request;
    so is a call made exactly 1000 ms later; one made 1001 ms later is let
    through in HALF_OPEN and its success is counted; a second success closes
    the circuit with both counters at zero. *)
Example recovery_scenario :
  state (breaker Sample.afterThreeFailures) = OPEN /\
  clock Sample.afterThreeFailures = 30 /\
  nextAttempt (breaker Sample.afterThreeFailures) = 1030 /\
  requests (snd (execute Sample.succeeding Sample.afterThreeFailures)) = 3%nat /\
  requests (snd (execute Sample.succeeding (Sample.waited 1000))) = 3%nat /\
  state (breaker Sample.afterFirstProbe) = HALF_OPEN /\
  successCount (breaker Sample.afterFirstProbe) = 1 /\
  requests Sample.afterFirstProbe = 4%nat /\
  state (breaker Sample.afterSecondProbe) = CLOSED /\
  failureCount (breaker Sample.afterSecondProbe) = 0 /\
  successCount (breaker Sample.afterSecondProbe) = 0.
Proof. vm_compute. repeat split. Qed.

(** C2.  For every failure threshold [N >= 1]: from CLOSED with a failure
    count of zero, fewer than [N] consecutive failed executions leave the
    breaker CLOSED (counting them), and exactly [N] of them open it, with
    [nextAttempt] set to the time of the [N]-th failure plus [timeout] and
    [successCount] zeroed. *)
Theorem consecutive_failures_open_the_circuit :
  forall (A : Type) (ops : list (M A)) (w : World) (N : Z),
    1 <= N ->
    failureThreshold (options (breaker w)) = N ->
    state (breaker w) = CLOSED ->
    failureCount (breaker w) = 0 ->
    Forall failsOutside ops ->
    let w' := executeAll ops w in
    (Z.of_nat (List.length ops) < N ->
       state (breaker w') = CLOSED /\
       failureCount (breaker w') = Z.of_nat (List.length ops)) /\
    (Z.of_nat (List.length ops) = N ->
       state (breaker w') = OPEN /\
       nextAttempt (breaker w') = clock w' + timeout (options (breaker w')) /\
       successCount (breaker w') = 0).
Proof.
  intros A ops w N HN Hthr Hs Hfc Hops. cbn zeta. split.
  - intros Hlen.
    destruct (closed_failures_accumulate ops Hops w Hs ltac:(lia)) as (? & ? & ?).
    split; [assumption | lia].
  - intros Hlen.
    destruct (exists_last (l := ops)) as (front & fn & ->).
    { intros ->. cbn in Hlen. lia. }
    apply Forall_app in Hops as [Hfront Hfn].
    apply Forall_inv in Hfn.
    rewrite length_app, Nat2Z.inj_add in Hlen. cbn in Hlen.
    destruct (closed_failures_accumulate front Hfront w Hs ltac:(lia))
      as (Hs1 & Hf1 & Ho1).
    unfold executeAll. rewrite fold_left_app. cbn [fold_left].
    fold (executeAll front w).
    pose proof (closed_failure fn (executeAll front w) Hfn Hs1) as [Ho Hstep].
    destruct (Z.geb_spec (failureCount (breaker (executeAll front w)) + 1)
                (failureThreshold (options (breaker (executeAll front w)))))
      as [_|Hlt]; [exact Hstep|].
    rewrite Hf1, Ho1, Hthr in Hlt. lia.
Qed.

Lemma send_rejected_failsOutside net rq :
  (forall n, exists e ms, net rq n = (Rejected e, ms)) ->
  failsOutside (send net rq).
Proof.
  intros Hnet w. destruct (Hnet (requests w)) as (e & ms & Hr).
  unfold send. rewrite Hr. eexists _, _. split; reflexivity.
Qed.

Lemma consecutive_failures_open_the_circuit_witness :
  state (breaker (executeAll
           [Sample.failing 500; Sample.failing 500; Sample.failing 500]
           Sample.fresh)) = OPEN.
Proof.
  assert (Hop : failsOutside (Sample.failing 500)).
  { apply send_rejected_failsOutside. intros n. eexists _, _. reflexivity. }
  exact (proj1 (proj2 (consecutive_failures_open_the_circuit
                  AxiosResponse
                  [Sample.failing 500; Sample.failing 500; Sample.failing 500]
                  Sample.fresh 3
                  ltac:(lia) eq_refl eq_refl eq_refl
                  (Forall_cons _ Hop (Forall_cons _ Hop (Forall_cons _ Hop (Forall_nil _)))))
               eq_refl)).
Defined.

(** C3.  While the breaker is OPEN and the clock is before [nextAttempt],
    [execute] does not run the wrapped operation: whatever the operation is,
    the call ends at once with an error whose message says that the circuit
    breaker is open, followed by the last error's message when there is one,
    and the world (the count of requests sent included) is as before. *)
Theorem open_circuit_rejects_without_invoking :
  forall (A : Type) (fn : M A) (w : World),
    state (breaker w) = OPEN ->
    clock w < nextAttempt (breaker w) ->
    execute fn w =
      (Abrupt (JsError (circuitOpenMessage (lastError (breaker w)))), w) /\
    (forall e, lastError (breaker w) = Some e ->
       circuitOpenMessage (lastError (breaker w)) =
         "Service unavailable - Circuit Breaker Open: " ++ messageOf e) /\
    (lastError (breaker w) = None ->
       circuitOpenMessage (lastError (breaker w)) =
         "Service unavailable - Circuit Breaker Open") /\
    (forall net rq, requests (snd (execute (send net rq) w)) = requests w).
Proof.
  intros A fn w Hs Hc. repeat split.
  - apply execute_rejects; [assumption | lia].
  - intros e ->. reflexivity.
  - intros ->. reflexivity.
  - intros net rq. rewrite execute_rejects by (assumption || lia). reflexivity.
Qed.

Lemma open_circuit_rejects_without_invoking_witness :
  execute Sample.succeeding Sample.trippedBefore =
    (Abrupt (JsError
       "Service unavailable - Circuit Breaker Open: Request failed with status code 500"),
     Sample.trippedBefore).
Proof.
  exact (proj1 (open_circuit_rejects_without_invoking
                  AxiosResponse Sample.succeeding Sample.trippedBefore
                  eq_refl eq_refl)).
Defined.



(** C7, as the code has it.  When [execute] is called while the breaker is
    OPEN and the clock is strictly past [nextAttempt], the breaker first
    becomes HALF_OPEN (success count zeroed, the change reported as
    [(OPEN, HALF_OPEN)]) and the wrapped operation is then run exactly once,
    from that half-open world; its completion is what the breaker
    observes. *)
Theorem expired_open_circuit_probes :
  forall (A : Type) (fn : M A) (w : World),
    state (breaker w) = OPEN ->
    clock w > nextAttempt (breaker w) ->
    execute fn w = observe (fn (snd (toHalfOpen w))) /\
    state (breaker (snd (toHalfOpen w))) = HALF_OPEN /\
    successCount (breaker (snd (toHalfOpen w))) = 0 /\
    notified (snd (toHalfOpen w)) = (notified w ++ [(OPEN, HALF_OPEN)])%list /\
    requests (snd (toHalfOpen w)) = requests w /\
    (forall net rq, requests (snd (execute (send net rq) w)) = S (requests w)).
Proof.
  intros A fn w Hs Hc. split; [apply execute_probes; assumption|].
  assert (Hh : state (breaker (snd (toHalfOpen w))) = HALF_OPEN /\
               successCount (breaker (snd (toHalfOpen w))) = 0 /\
               notified (snd (toHalfOpen w)) = (notified w ++ [(OPEN, HALF_OPEN)])%list /\
               requests (snd (toHalfOpen w)) = requests w).
  { clear Hc. open_world w. subst st. unfold_breaker. cbn. auto. }
  destruct Hh as (H1 & H2 & H3 & H4). repeat split; try assumption.
  intros net rq. rewrite execute_probes by assumption.
  destruct (observe_frame (send net rq (snd (toHalfOpen w)))) as (_ & -> & _).
  unfold send. destruct (net rq _) as [[res|reason] ms]; cbn; congruence.
Qed.

Lemma expired_open_circuit_probes_witness :
  requests (snd (execute Sample.succeeding Sample.trippedAfter)) = 1%nat.
Proof.
  exact (proj2 (proj2 (proj2 (proj2 (proj2
           (expired_open_circuit_probes
              AxiosResponse Sample.succeeding Sample.trippedAfter
              eq_refl eq_refl)))))
           Sample.healthy Sample.ping).
Defined.

(** C7, as stated, fails at the instant [now = nextAttempt]: the breaker is
    OPEN and [now >= nextAttempt], yet the call is rejected, the breaker stays
    OPEN, nothing is reported and no request is sent. *)
Lemma boundary_instant_is_rejected :
  state (breaker Sample.trippedAt) = OPEN /\
  clock Sample.trippedAt >= nextAttempt (breaker Sample.trippedAt) /\
  execute Sample.succeeding Sample.trippedAt <>
    observe (Sample.succeeding (snd (toHalfOpen Sample.trippedAt))) /\
  state (breaker (snd (execute Sample.succeeding Sample.trippedAt))) = OPEN /\
  notified (snd (execute Sample.succeeding Sample.trippedAt)) = [] /\
  requests (snd (execute Sample.succeeding Sample.trippedAt)) = 0%nat.
Proof.
  repeat split; try reflexivity.
  - cbn. lia.
  - intros H. apply (f_equal (fun x => requests (snd x))) in H.
    vm_compute in H. discriminate.
Qed.

(** C10.  A rejection by the open breaker changes nothing: when [execute]
    is called while the breaker is OPEN and the clock is before
    [nextAttempt], the whole world after the call is the world before it;
    in particular [state], [failureCount], [successCount], [nextAttempt] and
    [lastError] are as they were, and [getStatus] reports the same. *)
Theorem open_rejection_has_no_effect :
  forall (A : Type) (fn : M A) (w : World),
    state (breaker w) = OPEN ->
    clock w < nextAttempt (breaker w) ->
    snd (execute fn w) = w /\
    state (breaker (snd (execute fn w))) = state (breaker w) /\
    failureCount (breaker (snd (execute fn w))) = failureCount (breaker w) /\
    successCount (breaker (snd (execute fn w))) = successCount (breaker w) /\
    nextAttempt (breaker (snd (execute fn w))) = nextAttempt (breaker w) /\
    lastError (breaker (snd (execute fn w))) = lastError (breaker w) /\
    fst (getStatus (snd (execute fn w))) = fst (getStatus w).
Proof.
  intros A fn w Hs Hc.
  rewrite execute_rejects by (assumption || lia). cbn. auto 10.
Qed.

Lemma open_rejection_has_no_effect_witness :
  snd (execute (Sample.failing 500) Sample.trippedBefore) = Sample.trippedBefore.
Proof.
  exact (proj1 (open_rejection_has_no_effect
                  AxiosResponse (Sample.failing 500) Sample.trippedBefore
                  eq_refl eq_refl)).
Defined.

(* ------------------------------------------------------------------ *)
(** * The retrying client *)

Section ClientFacts.

Variable net : Network.

Lemma get_unfold path r :
  get net path r =
  callOnce net (mkRequest GET path None) r (get net path (pred r)).
Proof. destruct r; reflexivity. Qed.

Lemma post_unfold path payload r :
  post net path payload r =
  callOnce net (mkRequest POST path (Some payload)) r
           (post net path payload (pred r)).
Proof. destruct r; reflexivity. Qed.

Lemma attempt_cases rq r again w :
  attempt net rq r again w =
  match net rq (requests w) with
  | (Resolved res, ms) => (Normal (okResponse res), afterRequest ms w)
  | (Rejected e, ms) =>
      if (0 <? r)%nat && isRetryableError e
      then again (snd (sleep (1000 * (3 - Z.of_nat r)) (afterRequest ms w)))
      else (Abrupt e, afterRequest ms w)
  end.
Proof.
  unfold attempt, tryCatch, bind, send, afterRequest.
  destruct (net rq (requests w)) as [[res|e] ms]; [reflexivity|].
  cbv beta iota.
  destruct ((0 <? r)%nat && isRetryableError e); reflexivity.
Qed.

Lemma requests_slept d ms v :
  requests (snd (sleep d (afterRequest ms v))) = S (requests v).
Proof. reflexivity. Qed.

Lemma callOnce_world rq r again w :
  snd (callOnce net rq r again w) = snd (execute (attempt net rq r again) w).
Proof.
  unfold callOnce, tryCatch, bind, ret.
  destruct (execute _ w) as [[resp|e] w']; reflexivity.
Qed.

Lemma callOnce_returns rq r again w :
  exists resp, fst (callOnce net rq r again w) = Normal resp.
Proof.
  unfold callOnce, tryCatch, bind, ret.
  destruct (execute _ w) as [[resp|e] w']; cbn; eauto.
Qed.

Lemma callOnce_requests rq r again k w :
  ((0 <? r)%nat = true ->
   forall v, (requests v <= requests (snd (again v)) <= requests v + k)%nat) ->
  (requests w <= requests (snd (callOnce net rq r again w))
     <= requests w + 1 + (if (0 <? r)%nat then k else 0))%nat.
Proof.
  intros Hagain. rewrite callOnce_world.
  destruct (admits w) eqn:E.
  - rewrite admits_enters by assumption.
    destruct (observe_frame (attempt net rq r again (entered w))) as (_ & -> & _).
    destruct (entered_frame w) as (_ & Hr & _).
    rewrite attempt_cases.
    destruct (net rq (requests (entered w))) as [[res|e] ms]; cbn [snd requests afterRequest]; [lia|].
    destruct (0 <? r)%nat; cbn [andb]; [|cbn [snd requests afterRequest]; lia].
    destruct (isRetryableError e); [|cbn [snd requests afterRequest]; lia].
    match goal with |- context [again ?v] => specialize (Hagain eq_refl v) end.
    rewrite !requests_slept in Hagain. lia.
  - rewrite admits_rejects by assumption. cbn. lia.
Qed.

Lemma callOnce_terminal rq r again w e ms :
  admits w = true ->
  net rq (requests w) = (Rejected e, ms) ->
  isRetryableError e = false ->
  requests (snd (callOnce net rq r again w)) = S (requests w).
Proof.
  intros Ha Hnet He. rewrite callOnce_world, admits_enters by assumption.
  destruct (observe_frame (attempt net rq r again (entered w))) as (_ & -> & _).
  destruct (entered_frame w) as (_ & Hr & _).
  rewrite attempt_cases, Hr, Hnet, He, andb_false_r. cbn. congruence.
Qed.

Lemma callOnce_wellFormed rq r again w :
  ((0 <? r)%nat = true ->
   forall v, wellFormed v -> wellFormed (snd (again v))) ->
  wellFormed w -> wellFormed (snd (callOnce net rq r again w)).
Proof.
  intros Hagain Hw. rewrite callOnce_world.
  apply execute_wellFormed; [|assumption].
  intros v Hv. rewrite attempt_cases.
  destruct (net rq (requests v)) as [[res|e] ms]; [exact Hv|].
  destruct (0 <? r)%nat; [|exact Hv].
  destruct (isRetryableError e); [|exact Hv].
  apply Hagain; [reflexivity | exact Hv].
Qed.

Lemma get_requests path r w :
  (requests w <= requests (snd (get net path r w)) <= requests w + r + 1)%nat.
Proof.
  revert w. induction r as [|r IH]; intros w; rewrite get_unfold.
  - pose proof (callOnce_requests (mkRequest GET path None) 0
                  (get net path (pred 0)) 0 w) as H.
    cbn [Nat.ltb Nat.leb] in H. specialize (H ltac:(discriminate)). lia.
  - pose proof (callOnce_requests (mkRequest GET path None) (S r)
                  (get net path r) (r + 1) w
                  (fun _ v => ltac:(specialize (IH v); lia))) as H.
    cbn [Nat.ltb Nat.leb pred] in *. lia.
Qed.

Lemma post_requests path payload r w :
  (requests w <= requests (snd (post net path payload r w))
     <= requests w + r + 1)%nat.
Proof.
  revert w. induction r as [|r IH]; intros w; rewrite post_unfold.
  - pose proof (callOnce_requests (mkRequest POST path (Some payload)) 0
                  (post net path payload (pred 0)) 0 w) as H.
    cbn [Nat.ltb Nat.leb] in H. specialize (H ltac:(discriminate)). lia.
  - pose proof (callOnce_requests (mkRequest POST path (Some payload)) (S r)
                  (post net path payload r) (r + 1) w
                  (fun _ v => ltac:(specialize (IH v); lia))) as H.
    cbn [Nat.ltb Nat.leb pred] in *. lia.
Qed.

Lemma get_wellFormed path r w :
  wellFormed w -> wellFormed (snd (get net path r w)).
Proof.
  revert w. induction r as [|r IH]; intros w Hw; rewrite get_unfold;
    apply callOnce_wellFormed; auto; discriminate.
Qed.

Lemma post_wellFormed path payload r w :
  wellFormed w -> wellFormed (snd (post net path payload r w)).
Proof.
  revert w. induction r as [|r IH]; intros w Hw; rewrite post_unfold;
    apply callOnce_wellFormed; auto; discriminate.
Qed.

Lemma get_returns path r w : exists resp, fst (get net path r w) = Normal resp.
Proof. rewrite get_unfold. apply callOnce_returns. Qed.

Lemma post_returns path payload r w :
  exists resp, fst (post net path payload r w) = Normal resp.
Proof. rewrite post_unfold. apply callOnce_returns. Qed.

(** Whenever the first request of a [get] with at least one retry left
    fails with a retryable error, the outer [execute] ends by reporting a
    success to the breaker, after the nested [get] has reported its own
    outcome, and whatever that outcome was. *)
Lemma retried_get_is_observed_as_success path r w e ms :
  admits w = true ->
  net (mkRequest GET path None) (requests w) = (Rejected e, ms) ->
  isRetryableError e = true ->
  snd (get net path (S r) w) =
  snd (onSuccess
         (snd (get net path r
                 (snd (sleep (1000 * (3 - Z.of_nat (S r)))
                         (afterRequest ms (entered w))))))).
Proof.
  intros Ha Hnet He.
  rewrite get_unfold, callOnce_world, admits_enters by assumption.
  rewrite attempt_cases.
  destruct (entered_frame w) as (_ & -> & _). rewrite Hnet, He.
  cbn [Nat.ltb Nat.leb andb pred].
  destruct (get_returns path r
              (snd (sleep (1000 * (3 - Z.of_nat (S r)))
                      (afterRequest ms (entered w))))) as [resp Hresp].
  destruct (get net path r _) as [c v]. cbn in Hresp. subst c. reflexivity.
Qed.

End ClientFacts.

(** C6.  A logical [get] or [post] with [retries = r] sends at most [r + 1]
    requests; and when the breaker lets the call through and the first
    request fails with an error that [isRetryableError] rejects, exactly one
    request is sent, whatever [r] is. *)
Theorem physical_attempts_are_bounded :
  forall (net : Network) (path : string) (payload : Payload) (r : nat) (w : World),
    (requests (snd (get net path r w)) <= requests w + r + 1)%nat /\
    (requests (snd (post net path payload r w)) <= requests w + r + 1)%nat /\
    (forall e ms,
       admits w = true ->
       net (mkRequest GET path None) (requests w) = (Rejected e, ms) ->
       isRetryableError e = false ->
       requests (snd (get net path r w)) = (requests w + 1)%nat) /\
    (forall e ms,
       admits w = true ->
       net (mkRequest POST path (Some payload)) (requests w) = (Rejected e, ms) ->
       isRetryableError e = false ->
       requests (snd (post net path payload r w)) = (requests w + 1)%nat).
Proof.
  intros net path payload r w. repeat split.
  - apply get_requests.
  - apply post_requests.
  - intros e ms Ha Hnet He. rewrite get_unfold.
    rewrite (callOnce_terminal net _ r _ w e ms Ha Hnet He). lia.
  - intros e ms Ha Hnet He. rewrite post_unfold.
    rewrite (callOnce_terminal net _ r _ w e ms Ha Hnet He). lia.
Qed.

Lemma physical_attempts_are_bounded_witness :
  requests (snd (get (Sample.alwaysStatus 404) "/ping" 5 Sample.fresh)) = 1%nat.
Proof.
  exact (proj1 (proj2 (proj2
           (physical_attempts_are_bounded
              (Sample.alwaysStatus 404) "/ping" (Json "{}") 5 Sample.fresh)))
           (Sample.http 404) 10%nat eq_refl eq_refl eq_refl).
Defined.

(** C9.  The threshold invariant (CLOSED implies
    [failureCount < failureThreshold], HALF_OPEN implies
    [successCount < successThreshold], for thresholds of at least one) holds
    of a new breaker, is established by [reset], and is preserved by
    [execute] around any operation that itself preserves it (in particular
    one that leaves the breaker alone), hence by [get] and [post]. *)
Theorem threshold_invariant_is_preserved :
  (forall o, 1 <= failureThreshold o -> 1 <= successThreshold o ->
     thresholdsOk (newCircuitBreaker o) /\ belowThresholds (newCircuitBreaker o)) /\
  (forall w, thresholdsOk (breaker w) -> wellFormed (snd (reset w))) /\
  (forall (A : Type) (fn : M A),
     (forall v, wellFormed v -> wellFormed (snd (fn v))) ->
     forall w, wellFormed w -> wellFormed (snd (execute fn w))) /\
  (forall (A : Type) (fn : M A),
     (forall v, breaker (snd (fn v)) = breaker v) ->
     forall w, wellFormed w -> wellFormed (snd (execute fn w))) /\
  (forall net path r w, wellFormed w -> wellFormed (snd (get net path r w))) /\
  (forall net path payload r w,
     wellFormed w -> wellFormed (snd (post net path payload r w))).
Proof.
  split; [|split; [|split; [|split; [|split]]]].
  - intros o Hf Hs. unfold thresholdsOk, belowThresholds. cbn.
    repeat split; auto; try discriminate; lia.
  - apply reset_wellFormed.
  - intros A fn Hfn w. apply execute_wellFormed. exact Hfn.
  - intros A fn Hfn w. apply execute_wellFormed.
    intros v Hv. unfold wellFormed in *. rewrite Hfn. exact Hv.
  - intros net path r w. apply get_wellFormed.
  - intros net path payload r w. apply post_wellFormed.
Qed.

Lemma threshold_invariant_is_preserved_witness :
  wellFormed (snd (execute (Sample.failing 500) Sample.fresh)).
Proof.
  refine (proj1 (proj2 (proj2 (proj2 threshold_invariant_is_preserved)))
            AxiosResponse (Sample.failing 500) _ Sample.fresh _).
  - intros v. unfold Sample.failing, send. reflexivity.
  - unfold wellFormed, thresholdsOk, belowThresholds. cbn.
    repeat split; intros; try discriminate; lia.
Defined.

(* ------------------------------------------------------------------ *)
(** * The error classifier *)

Lemma numIs_true st k : numIs st k = true <-> st = Some k.
Proof.
  destruct st as [z|]; cbn; [|split; discriminate].
  rewrite Z.eqb_eq. split; congruence.
Qed.

Lemma strIs_true cd k : strIs cd k = true <-> cd = Some k.
Proof.
  destruct cd as [t|]; cbn; [|split; discriminate].
  rewrite String.eqb_eq. split; congruence.
Qed.

Lemma falsyNum_true st : negb (truthyNum st) = true <-> st = None \/ st = Some 0.
Proof.
  destruct st as [z|]; cbn.
  - rewrite negb_involutive, Z.eqb_eq. split.
    + intros ->. auto.
    + intros [H|H]; congruence.
  - split; auto.
Qed.

Lemma isRetryableError_axios st cd sm m :
  isRetryableError (AxiosError st cd sm m) =
  (negb (truthyNum st) || numIs st 429 || numIs st 503 || numIs st 504)
  || (strIs cd "ECONNRESET" || strIs cd "ETIMEDOUT").
Proof.
  cbn. destruct (negb (truthyNum st) || numIs st 429 || numIs st 503 || numIs st 504);
    cbn; [reflexivity|].
  destruct (strIs cd "ECONNRESET" || strIs cd "ETIMEDOUT"); reflexivity.
Qed.

(** C5, as the code has it.  An Axios error without an HTTP status gets the
    code INTERNAL_SERVER_ERROR and is retryable; an error is retryable
    exactly when it is an Axios error whose status is absent, zero, 429, 503
    or 504, or whose [code] is ECONNRESET or ETIMEDOUT; the statuses of the
    table get their codes, a status of zero gets INTERNAL_SERVER_ERROR like
    an absent one, any other status gets API_ERROR, and errors that are not
    Axios errors get CLIENT_ERROR or UNKNOWN_ERROR and are never retried. *)
Theorem classifier_table :
  (forall cd sm m,
     code (handleError (AxiosError None cd sm m)) = "INTERNAL_SERVER_ERROR" /\
     isRetryableError (AxiosError None cd sm m) = true) /\
  (forall err,
     isRetryableError err = true <->
     exists st cd sm m,
       err = AxiosError st cd sm m /\
       (st = None \/ st = Some 0 \/ st = Some 429 \/ st = Some 503 \/ st = Some 504 \/
        cd = Some "ECONNRESET" \/ cd = Some "ETIMEDOUT")) /\
  (forall st cd sm m,
     code (handleError (AxiosError (Some st) cd sm m)) =
       if st =? 400 then "BAD_REQUEST"
       else if st =? 401 then "UNAUTHORIZED"
       else if st =? 403 then "FORBIDDEN"
       else if st =? 404 then "NOT_FOUND"
       else if st =? 429 then "RATE_LIMITED"
       else if (st =? 500) || (st =? 0) then "INTERNAL_SERVER_ERROR"
       else if st =? 502 then "BAD_GATEWAY"
       else if st =? 503 then "SERVICE_UNAVAILABLE"
       else if st =? 504 then "GATEWAY_TIMEOUT"
       else "API_ERROR") /\
  (forall m, code (handleError (JsError m)) = "CLIENT_ERROR" /\
             isRetryableError (JsError m) = false) /\
  (forall t, code (handleError (NonError t)) = "UNKNOWN_ERROR" /\
             isRetryableError (NonError t) = false).
Proof.
  split; [|split; [|split; [|split]]].
  - intros cd sm m. split; reflexivity.
  - intros err. split.
    + destruct err as [st cd sm m | m | t]; try discriminate.
      rewrite isRetryableError_axios, !orb_true_iff.
      rewrite falsyNum_true, !numIs_true, !strIs_true.
      intros H. exists st, cd, sm, m. split; [reflexivity | tauto].
    + intros (st & cd & sm & m & -> & H).
      rewrite isRetryableError_axios, !orb_true_iff.
      rewrite falsyNum_true, !numIs_true, !strIs_true. tauto.
  - intros st cd sm m. unfold handleError, truthyNum.
    destruct (Z.eqb_spec st 0) as [->|H0]; [reflexivity|]. cbn [negb code].
    rewrite orb_false_r. unfold errorCodeMap.
    repeat match goal with
           | |- context [?a =? ?b] => destruct (Z.eqb_spec a b); [reflexivity|]
           end.
    reflexivity.
  - intros m. split; reflexivity.
  - intros t. split; reflexivity.
Qed.

(** C5, as stated, fails: a 502 is not retried, and an error without a
    status is not given the code NETWORK_ERROR. *)
Lemma bad_gateway_is_terminal_and_timeouts_are_internal :
  isRetryableError (Sample.http 502) = false /\
  code (handleError (Sample.http 502)) = "BAD_GATEWAY" /\
  code (handleError Sample.timedOut) = "INTERNAL_SERVER_ERROR" /\
  code (handleError Sample.timedOut) <> "NETWORK_ERROR".
Proof. repeat split; try reflexivity. discriminate. Qed.

(* ------------------------------------------------------------------ *)
(** * What the breaker sees of a retried call *)

(** One logical call that is retried: from CLOSED, with the thresholds of
    [Sample.opts], a [get] with two retries against a network that answers
    503 ends with the failure count back at zero. *)
Lemma retried_get_clears_failureCount w :
  state (breaker w) = CLOSED ->
  options (breaker w) = Sample.opts ->
  failureCount (breaker w) = 0 ->
  let w' := snd (get (Sample.alwaysStatus 503) "/ping" 2 w) in
  state (breaker w') = CLOSED /\
  options (breaker w') = Sample.opts /\
  failureCount (breaker w') = 0 /\
  requests w' = (requests w + 3)%nat.
Proof.
  intros Hs Ho Hf. open_world w. subst st opts fc.
  cbv [get execute attempt send tryCatch bind ret throw this gets modify assign
       Date_now sleep onSuccess onFailure toOpen changeState onStateChange
       withBreaker Sample.alwaysStatus isRetryableError Sample.http].
  cbn. repeat split. lia.
Qed.

(** C1 does not hold of the code.  With the default [retries = 2] and a
    network that answers every request with 503, one logical [get] on a new
    breaker sends three requests and returns the failure, but the breaker is
    told three outcomes, not one: the failure of the innermost call and then
    a success for each enclosing [execute].  Its failure count ends at zero,
    where a single observed failure leaves one. *)
Theorem retried_failure_is_reported_as_success :
  fst (get (Sample.alwaysStatus 503) "/ping" 2 Sample.fresh)
    = Normal (errorResponse (Sample.http 503)) /\
  requests (snd (get (Sample.alwaysStatus 503) "/ping" 2 Sample.fresh)) = 3%nat /\
  breaker (snd (get (Sample.alwaysStatus 503) "/ping" 2 Sample.fresh))
    = breaker (snd (onSuccess (snd (onSuccess (snd
        (onFailure (Sample.http 503) Sample.fresh)))))) /\
  failureCount (breaker (snd (get (Sample.alwaysStatus 503) "/ping" 2 Sample.fresh)))
    = 0 /\
  failureCount (breaker (snd (onFailure (Sample.http 503) Sample.fresh))) = 1.
Proof. vm_compute. repeat split. Qed.

(** However many such logical calls fail in a row, the breaker with
    [failureThreshold = 3] stays CLOSED. *)
Lemma persistent_retryable_failures_never_open (k : nat) :
  state (breaker (Nat.iter k
           (fun w => snd (get (Sample.alwaysStatus 503) "/ping" 2 w))
           Sample.fresh)) = CLOSED.
Proof.
  enough (H : let w := Nat.iter k
                (fun w => snd (get (Sample.alwaysStatus 503) "/ping" 2 w))
                Sample.fresh in
              state (breaker w) = CLOSED /\ options (breaker w) = Sample.opts /\
              failureCount (breaker w) = 0) by apply H.
  induction k as [|k IH].
  - cbn. auto.
  - cbn [Nat.iter]. cbn zeta in *. destruct IH as (Hs & Ho & Hf).
    destruct (retried_get_clears_failureCount _ Hs Ho Hf) as (? & ? & ? & _). auto.
Qed.

(* ------------------------------------------------------------------ *)
(** * Missing credentials *)

Lemma createFallbackResponse_frame rnd fb basePrompt msg w :
  exists image,
    fst (FluxService.createFallbackResponse rnd fb basePrompt msg w) =
      Normal (mkApiResponse
                (Some (ImageData image basePrompt
                         (Some (mkApiError "FALLBACK_USED" msg NoDetails)) true))
                None 200 true) /\
    breaker (snd (FluxService.createFallbackResponse rnd fb basePrompt msg w))
      = breaker w /\
    clock (snd (FluxService.createFallbackResponse rnd fb basePrompt msg w))
      = clock w /\
    requests (snd (FluxService.createFallbackResponse rnd fb basePrompt msg w))
      = requests w /\
    notified (snd (FluxService.createFallbackResponse rnd fb basePrompt msg w))
      = notified w.
Proof.
  unfold FluxService.createFallbackResponse, FluxService.getFallbackImage,
         bind, ret, gets, modify.
  destruct (negb (FluxService.fallbackEnabled fb)
            || (List.length (FluxService.fallbackImages fb) =? 0)%nat);
    cbn; eexists; repeat split.
Qed.

(** C8, as the code has it.  When [config.apiKey] is absent (undefined or
    empty), every public operation of an adapter returns at once, without
    calling [post] or [get] of its base class, so that neither the retry loop
    nor the breaker runs.  Grok, Perplexity and Anthropic return a failure
    with status 401 and their own authentication error code, and leave the
    world untouched; Flux returns a successful response (status 200) that
    carries a fallback image marked [fallback = true] and the error
    FALLBACK_USED, and leaves breaker, clock and request count untouched. *)
Theorem missing_credential_short_circuits :
  forall (self : ApiService) (w : World),
    truthyStr (apiKey self) = false ->
    (forall word,
       GrokService.getSuggestions self word w =
         (Normal (mkApiResponse None
            (Some (mkApiError "GROK_AUTH_ERROR" "No API key provided for Grok AI"
                     NoDetails)) 401 false), w)) /\
    (forall word,
       GrokService.getWordInfo self word w =
         (Normal (mkApiResponse None
            (Some (mkApiError "GROK_AUTH_ERROR" "No API key provided for Grok AI"
                     NoDetails)) 401 false), w)) /\
    (forall text,
       PerplexityService.query self text w =
         (Normal (mkApiResponse None
            (Some (mkApiError "PERPLEXITY_AUTH_ERROR"
                     "No API key provided for Perplexity AI" NoDetails)) 401 false), w)) /\
    (forall queryId,
       PerplexityService.getSources self queryId w =
         (Normal (mkApiResponse None
            (Some (mkApiError "PERPLEXITY_AUTH_ERROR"
                     "No API key provided for Perplexity AI" NoDetails)) 401 false), w)) /\
    (forall decode text,
       AnthropicService.query decode self text w =
         (Normal (mkApiResponse None
            (Some (mkApiError "ANTHROPIC_AUTH_ERROR"
                     "No API key provided for Anthropic Claude" NoDetails)) 401 false), w)) /\
    (forall hasContent parse text,
       AnthropicService.analyzeLanguage hasContent parse self text w =
         (Normal (mkApiResponse None
            (Some (mkApiError "ANTHROPIC_AUTH_ERROR"
                     "No API key provided for Anthropic Claude" NoDetails)) 401 false), w)) /\
    (forall rnd fb request,
       FluxService.generateImage rnd self fb request w =
         FluxService.createFallbackResponse rnd fb (FluxService.prompt request)
           "No API token configured" w /\
       exists image,
         fst (FluxService.generateImage rnd self fb request w) =
           Normal (mkApiResponse
                     (Some (ImageData image (FluxService.prompt request)
                              (Some (mkApiError "FALLBACK_USED"
                                       "No API token configured" NoDetails)) true))
                     None 200 true) /\
         breaker (snd (FluxService.generateImage rnd self fb request w)) = breaker w /\
         clock (snd (FluxService.generateImage rnd self fb request w)) = clock w /\
         requests (snd (FluxService.generateImage rnd self fb request w)) = requests w /\
         notified (snd (FluxService.generateImage rnd self fb request w)) = notified w).
Proof.
  intros self w Hkey.
  unfold GrokService.getSuggestions, GrokService.getWordInfo,
         PerplexityService.query, PerplexityService.getSources,
         AnthropicService.query, AnthropicService.analyzeLanguage,
         FluxService.generateImage.
  rewrite Hkey. cbn [negb].
  repeat split; try reflexivity.
  apply createFallbackResponse_frame.
Qed.

Lemma missing_credential_short_circuits_witness :
  GrokService.getSuggestions
    (enhancedService (Sample.alwaysStatus 503) None) "serendipity" Sample.fresh =
    (Normal (mkApiResponse None
       (Some (mkApiError "GROK_AUTH_ERROR" "No API key provided for Grok AI"
                NoDetails)) 401 false), Sample.fresh).
Proof.
  exact (proj1 (missing_credential_short_circuits
                  (enhancedService (Sample.alwaysStatus 503) None) Sample.fresh
                  eq_refl) "serendipity").
Defined.

(** C8, as stated, fails for the Flux adapter: without an API token
    [generateImage] does not return an error at all but a successful
    response with status 200. *)
Lemma flux_without_token_reports_success :
  fst (FluxService.generateImage Sample.firstIndex
         (enhancedService Sample.healthy None) Sample.fallback
         Sample.imageRequest Sample.fresh)
  = Normal (mkApiResponse
              (Some (ImageData "/fallback/language-1.svg" "a lighthouse"
                       (Some (mkApiError "FALLBACK_USED" "No API token configured"
                                NoDetails)) true))
              None 200 true) /\
  (forall resp,
     fst (FluxService.generateImage Sample.firstIndex
            (enhancedService Sample.healthy None) Sample.fallback
            Sample.imageRequest Sample.fresh) = Normal resp ->
     success resp = true /\ error resp = None /\ status resp <> 401).
Proof.
  split; [reflexivity|].
  intros resp H. vm_compute in H. injection H as <-. cbn.
  repeat split. discriminate.
Qed.

(* ------------------------------------------------------------------ *)
(** * Properties kept over the breaker's lifetime *)

Section Preservation.

(** A property of the world that the breaker's own steps keep, and that does
    not depend on the clock, the request count or the random draws. *)
Variable P : World -> Prop.
Hypothesis P_success : forall w, P w -> P (snd (onSuccess w)).
Hypothesis P_failure : forall e w, P w -> P (snd (onFailure e w)).
Hypothesis P_entered : forall w, P w -> P (entered w).
Hypothesis P_elsewhere :
  forall w c r d, P w -> P (mkWorld (breaker w) c r (notified w) d).

Lemma observe_preserves {A} (x : Completion A * World) :
  P (snd x) -> P (snd (observe x)).
Proof.
  destruct x as [[r|e] w]; unfold observe; cbn [snd]; intros;
    [apply P_success | apply P_failure]; assumption.
Qed.

Lemma execute_preserves {A} (fn : M A) w :
  (forall v, P v -> P (snd (fn v))) -> P w -> P (snd (execute fn w)).
Proof.
  intros Hfn Hw. destruct (admits w) eqn:E.
  - rewrite (admits_enters fn w E). apply observe_preserves. auto.
  - rewrite (admits_rejects fn w E). exact Hw.
Qed.

Lemma execute_preserves_outside {A} (fn : M A) w :
  (forall v, breaker (snd (fn v)) = breaker v /\ notified (snd (fn v)) = notified v) ->
  P w -> P (snd (execute fn w)).
Proof.
  intros Hfn. apply execute_preserves. intros v Hv.
  destruct (Hfn v) as [Hb Hn].
  pose proof (P_elsewhere v (clock (snd (fn v))) (requests (snd (fn v)))
                (draws (snd (fn v))) Hv) as H.
  rewrite <- Hb, <- Hn in H. destruct (snd (fn v)). exact H.
Qed.

Lemma callOnce_preserves net rq r again w :
  ((0 <? r)%nat = true -> forall v, P v -> P (snd (again v))) ->
  P w -> P (snd (callOnce net rq r again w)).
Proof.
  intros Hagain Hw. rewrite callOnce_world.
  apply execute_preserves; [|assumption].
  intros v Hv. rewrite attempt_cases.
  destruct (net rq (requests v)) as [[res|e] ms];
    [apply (P_elsewhere v); exact Hv|].
  destruct (0 <? r)%nat; [|apply (P_elsewhere v); exact Hv].
  destruct (isRetryableError e); [|apply (P_elsewhere v); exact Hv].
  apply Hagain; [reflexivity|].
  apply (P_elsewhere (afterRequest ms v)). apply (P_elsewhere v). exact Hv.
Qed.

Lemma get_preserves net path r w : P w -> P (snd (get net path r w)).
Proof.
  revert w. induction r as [|r IH]; intros w Hw; rewrite get_unfold;
    apply callOnce_preserves; auto; discriminate.
Qed.

Lemma post_preserves net path payload r w :
  P w -> P (snd (post net path payload r w)).
Proof.
  revert w. induction r as [|r IH]; intros w Hw; rewrite post_unfold;
    apply callOnce_preserves; auto; discriminate.
Qed.

End Preservation.

Lemma settled_success w :
  settled (breaker w) -> settled (breaker (snd (onSuccess w))).
Proof.
  unfold settled. open_world w. unfold_breaker. destruct st; cbn.
  - intros (? & ? & ? & ? & ? & ? & ? & ?).
    repeat split; auto; try lia; try congruence.
  - tauto.
  - destruct (Z.geb_spec (sc + 1) (successThreshold opts)); cbn;
      intros (? & ? & ? & ? & ? & ? & ? & ?);
      repeat split; auto; try lia; try congruence.
Qed.

Lemma settled_failure e w :
  settled (breaker w) -> settled (breaker (snd (onFailure e w))).
Proof.
  unfold settled. open_world w. unfold_breaker. destruct st; cbn.
  - destruct (Z.geb_spec (fc + 1) (failureThreshold opts)); cbn;
      intros (? & ? & ? & ? & Hsc & ? & Hfc & ?);
      specialize (Hfc eq_refl);
      repeat split; auto; try lia; try congruence;
      intros; apply Hsc; congruence.
  - intros (? & ? & ? & ? & ? & ? & ? & ?).
    repeat split; auto; try lia; try congruence.
  - intros (? & ? & ? & ? & ? & Hfc & ? & ?).
    repeat split; auto; try lia; try congruence.
    intros _. apply Hfc. congruence.
Qed.

Lemma settled_entered w : settled (breaker w) -> settled (breaker (entered w)).
Proof.
  unfold settled, entered. open_world w. unfold_breaker. destruct st; cbn; try tauto.
  intros (? & ? & ? & ? & ? & Hfc & ? & Herr).
  repeat split; auto; try lia; try congruence;
    intros _; [apply Hfc | apply Herr]; congruence.
Qed.

Lemma settled_reset w : settled (breaker w) -> settled (breaker (snd (reset w))).
Proof.
  unfold settled. open_world w. unfold_breaker. destruct st; cbn;
    intros (? & ? & ? & ? & ? & ? & ? & ?);
    repeat split; auto; try lia; try congruence.
Qed.

Lemma replay_snoc log : forall s a b,
  replay s (log ++ [(a, b)]) =
  match replay s log with
  | Some c => if state_eqb a c && negb (state_eqb a b) then Some b else None
  | None => None
  end.
Proof.
  induction log as [|[x y] log IH]; intros s a b; cbn.
  - destruct (state_eqb a s && negb (state_eqb a b)); reflexivity.
  - destruct (state_eqb x s && negb (state_eqb x y)); [apply IH | reflexivity].
Qed.

Lemma tracked_changeState to w : tracked w -> tracked (snd (changeState to w)).
Proof.
  unfold tracked. open_world w. unfold_breaker. cbn.
  destruct (state_eqb st to) eqn:E; cbn; [auto|].
  intros H. rewrite replay_snoc, H.
  destruct st, to; cbn in *; congruence.
Qed.

Lemma tracked_same w v :
  state (breaker v) = state (breaker w) -> notified v = notified w ->
  tracked w -> tracked v.
Proof. unfold tracked. intros -> ->. auto. Qed.

Lemma tracked_reset w : tracked w -> tracked (snd (reset w)).
Proof.
  intros H. apply (tracked_same (snd (changeState CLOSED w)));
    [| |apply tracked_changeState; exact H];
    open_world w; unfold_breaker; destruct st; reflexivity.
Qed.

Lemma tracked_toOpen w : tracked w -> tracked (snd (toOpen w)).
Proof.
  intros H. apply (tracked_same (snd (changeState OPEN w)));
    [| |apply tracked_changeState; exact H];
    open_world w; unfold_breaker; destruct st; reflexivity.
Qed.

Lemma tracked_entered w : tracked w -> tracked (entered w).
Proof.
  intros H. unfold entered.
  destruct (state_eqb (state (breaker w)) OPEN); [|exact H].
  apply (tracked_same (snd (changeState HALF_OPEN w)));
    [| |apply tracked_changeState; exact H];
    open_world w; unfold_breaker; destruct st; reflexivity.
Qed.

Lemma tracked_success w : tracked w -> tracked (snd (onSuccess w)).
Proof.
  intros H. open_world w. destruct st.
  - exact H.
  - exact H.
  - unfold onSuccess, this, assign, bind, gets, modify, withBreaker, ret. cbn.
    destruct (sc + 1 >=? successThreshold opts).
    + match goal with |- tracked (snd (reset ?v)) => apply (tracked_reset v) end.
      exact H.
    + exact H.
Qed.

Lemma tracked_failure e w : tracked w -> tracked (snd (onFailure e w)).
Proof.
  intros H. open_world w. destruct st.
  - unfold onFailure, this, assign, bind, gets, modify, withBreaker, ret. cbn.
    destruct (fc + 1 >=? failureThreshold opts).
    + match goal with |- tracked (snd (toOpen ?v)) => apply (tracked_toOpen v) end.
      exact H.
    + exact H.
  - exact H.
  - unfold tracked in *. unfold_breaker. cbn in *.
    rewrite replay_snoc, H. reflexivity.
Qed.

(** X1.  The breaker created by the constructor, with integer thresholds of at
    least one, keeps its shape through [reset], [execute], [get] and [post]:
    [successCount] is zero outside HALF_OPEN and below its threshold inside;
    [failureCount] is below its threshold while CLOSED and equal to it
    otherwise; and a breaker that is not CLOSED has a [lastError]. *)
Theorem breaker_shape_is_invariant :
  (forall o, 1 <= failureThreshold o -> 1 <= successThreshold o ->
     settled (newCircuitBreaker o)) /\
  (forall w, settled (breaker w) -> settled (breaker (snd (reset w)))) /\
  (forall (A : Type) (fn : M A),
     (forall v, settled (breaker v) -> settled (breaker (snd (fn v)))) ->
     forall w, settled (breaker w) -> settled (breaker (snd (execute fn w)))) /\
  (forall net path r w,
     settled (breaker w) -> settled (breaker (snd (get net path r w)))) /\
  (forall net path payload r w,
     settled (breaker w) -> settled (breaker (snd (post net path payload r w)))).
Proof.
  split; [|split; [|split; [|split]]].
  - intros o Hf Hs. unfold settled. cbn.
    repeat split; auto; try lia; try congruence.
  - apply settled_reset.
  - intros A fn Hfn w.
    apply (execute_preserves (fun v => settled (breaker v))
             settled_success settled_failure settled_entered fn w Hfn).
  - intros net path r w.
    apply (get_preserves (fun v => settled (breaker v))
             settled_success settled_failure settled_entered
             (fun w c r d H => H)).
  - intros net path payload r w.
    apply (post_preserves (fun v => settled (breaker v))
             settled_success settled_failure settled_entered
             (fun w c r d H => H)).
Qed.

Lemma breaker_shape_is_invariant_witness :
  settled (breaker (snd (get (Sample.alwaysStatus 503) "/ping" 2 Sample.fresh))).
Proof.
  refine (proj1 (proj2 (proj2 (proj2 breaker_shape_is_invariant)))
            (Sample.alwaysStatus 503) "/ping" 2%nat Sample.fresh _).
  unfold settled. cbn. repeat split; try lia; congruence.
Defined.

(** X2.  A breaker in that shape never rejects a call without naming the cause:
    while it is OPEN and the clock has not passed [nextAttempt], there is a
    last error and the rejection's message ends with that error's message. *)
Theorem rejection_names_the_cause :
  forall (A : Type) (fn : M A) (w : World),
    settled (breaker w) ->
    state (breaker w) = OPEN ->
    clock w <= nextAttempt (breaker w) ->
    exists e,
      lastError (breaker w) = Some e /\
      execute fn w =
        (Abrupt (JsError ("Service unavailable - Circuit Breaker Open: "
                          ++ messageOf e)), w).
Proof.
  intros A fn w Hshape Hs Hc.
  destruct Hshape as (_ & _ & _ & _ & _ & _ & _ & Herr).
  destruct (lastError (breaker w)) as [e|] eqn:E.
  - exists e. split; [reflexivity|].
    rewrite execute_rejects by assumption. rewrite E. reflexivity.
  - exfalso. apply Herr; congruence.
Qed.

Lemma rejection_names_the_cause_witness :
  exists e,
    lastError (breaker Sample.trippedAt) = Some e /\
    execute Sample.succeeding Sample.trippedAt =
      (Abrupt (JsError ("Service unavailable - Circuit Breaker Open: "
                        ++ messageOf e)), Sample.trippedAt).
Proof.
  refine (rejection_names_the_cause AxiosResponse Sample.succeeding
            Sample.trippedAt _ eq_refl _).
  - unfold settled. cbn. repeat split; try lia; congruence.
  - cbn. lia.
Defined.

(** X3.  Every change of state is reported to [onStateChange], once and as a real
    change: replayed from CLOSED, the reports received so far lead to the
    breaker's current state.  This holds of a new breaker and is kept by
    [reset], [execute], [get] and [post]. *)
Theorem state_changes_are_all_reported :
  (forall o now, tracked (mkWorld (newCircuitBreaker o) now 0 [] 0)) /\
  (forall w, tracked w -> tracked (snd (reset w))) /\
  (forall (A : Type) (fn : M A),
     (forall v, tracked v -> tracked (snd (fn v))) ->
     forall w, tracked w -> tracked (snd (execute fn w))) /\
  (forall (A : Type) (fn : M A),
     (forall v, breaker (snd (fn v)) = breaker v /\
                notified (snd (fn v)) = notified v) ->
     forall w, tracked w -> tracked (snd (execute fn w))) /\
  (forall net path r w, tracked w -> tracked (snd (get net path r w))) /\
  (forall net path payload r w,
     tracked w -> tracked (snd (post net path payload r w))).
Proof.
  assert (Helse : forall w c r d,
             tracked w -> tracked (mkWorld (breaker w) c r (notified w) d))
    by (intros w c r d H; exact H).
  split; [|split; [|split; [|split; [|split]]]].
  - intros o now. reflexivity.
  - apply tracked_reset.
  - intros A fn Hfn w.
    apply (execute_preserves tracked tracked_success tracked_failure
             tracked_entered fn w Hfn).
  - intros A fn Hfn w.
    apply (execute_preserves_outside tracked tracked_success tracked_failure
             tracked_entered Helse fn w Hfn).
  - intros net path r w.
    apply (get_preserves tracked tracked_success tracked_failure
             tracked_entered Helse).
  - intros net path payload r w.
    apply (post_preserves tracked tracked_success tracked_failure
             tracked_entered Helse).
Qed.

Lemma state_changes_are_all_reported_witness :
  tracked Sample.afterSecondProbe /\
  notified Sample.afterSecondProbe =
    [(CLOSED, OPEN); (OPEN, HALF_OPEN); (HALF_OPEN, CLOSED)].
Proof.
  split; [|reflexivity].
  assert (Hout : forall (net : Network) v,
             breaker (snd (send net Sample.ping v)) = breaker v /\
             notified (snd (send net Sample.ping v)) = notified v).
  { intros net v. unfold send.
    destruct (net Sample.ping (requests v)) as [[res|e] ms]; split; reflexivity. }
  pose proof (proj1 (proj2 (proj2 (proj2 state_changes_are_all_reported)))) as Hexec.
  apply (Hexec AxiosResponse Sample.succeeding (Hout Sample.healthy)).
  apply (Hexec AxiosResponse Sample.succeeding (Hout Sample.healthy)).
  reflexivity.
Defined.

(** One successful execution while half-open. *)
Lemma half_open_success {A} (fn : M A) w :
  succeedsOutside fn ->
  state (breaker w) = HALF_OPEN ->
  let w' := snd (execute fn w) in
  options (breaker w') = options (breaker w) /\
  if successCount (breaker w) + 1 >=? successThreshold (options (breaker w))
  then state (breaker w') = CLOSED /\
       failureCount (breaker w') = 0 /\
       successCount (breaker w') = 0 /\
       nextAttempt (breaker w') = 0
  else state (breaker w') = HALF_OPEN /\
       successCount (breaker w') = successCount (breaker w) + 1.
Proof.
  intros Hfn Hs. cbn zeta.
  rewrite execute_passes by congruence.
  destruct (Hfn w) as (r & w1 & Hrun & Hb). rewrite Hrun. cbn [observe snd].
  rewrite <- Hb. rewrite <- Hb in Hs. clear Hrun Hb w.
  open_world w1. subst st. unfold_breaker. cbn.
  destruct (_ >=? _); cbn; auto.
Qed.

Lemma half_open_successes_accumulate {A} (ops : list (M A)) :
  Forall succeedsOutside ops ->
  forall w,
    state (breaker w) = HALF_OPEN ->
    successCount (breaker w) + Z.of_nat (List.length ops)
      < successThreshold (options (breaker w)) ->
    let w' := executeAll ops w in
    state (breaker w') = HALF_OPEN /\
    successCount (breaker w') = successCount (breaker w) + Z.of_nat (List.length ops) /\
    options (breaker w') = options (breaker w).
Proof.
  induction 1 as [|fn ops Hfn Hops IH]; intros w Hs Hlt.
  - cbn. repeat split; auto. lia.
  - cbn [executeAll fold_left]. cbn [List.length] in Hlt.
    rewrite Nat2Z.inj_succ in Hlt.
    pose proof (half_open_success fn w Hfn Hs) as [Ho Hstep].
    destruct (Z.geb_spec (successCount (breaker w) + 1)
                         (successThreshold (options (breaker w)))); [lia|].
    destruct Hstep as [Hs' Hf'].
    specialize (IH (snd (execute fn w)) Hs').
    rewrite Hf', Ho in IH. specialize (IH ltac:(lia)).
    destruct IH as (? & ? & ?). fold (executeAll ops (snd (execute fn w))).
    cbn [List.length]. rewrite Nat2Z.inj_succ. repeat split; auto. lia.
Qed.

Lemma half_open_successes_close {A} (ops : list (M A)) w :
  state (breaker w) = HALF_OPEN ->
  successCount (breaker w) = 0 ->
  Forall succeedsOutside ops ->
  1 <= successThreshold (options (breaker w)) ->
  Z.of_nat (List.length ops) = successThreshold (options (breaker w)) ->
  state (breaker (executeAll ops w)) = CLOSED /\
  failureCount (breaker (executeAll ops w)) = 0 /\
  successCount (breaker (executeAll ops w)) = 0 /\
  nextAttempt (breaker (executeAll ops w)) = 0.
Proof.
  intros Hs Hsc Hops HN Hlen.
  destruct (exists_last (l := ops)) as (front & fn & ->).
  { intros ->. cbn in Hlen. lia. }
  apply Forall_app in Hops as [Hfront Hfn].
  apply Forall_inv in Hfn.
  rewrite length_app, Nat2Z.inj_add in Hlen. cbn in Hlen.
  destruct (half_open_successes_accumulate front Hfront w Hs ltac:(lia))
    as (Hs1 & Hf1 & Ho1).
  unfold executeAll. rewrite fold_left_app. cbn [fold_left].
  fold (executeAll front w).
  pose proof (half_open_success fn (executeAll front w) Hfn Hs1) as [Ho Hstep].
  destruct (Z.geb_spec (successCount (breaker (executeAll front w)) + 1)
              (successThreshold (options (breaker (executeAll front w)))))
    as [_|Hlt]; [exact Hstep|].
  rewrite Hf1, Ho1 in Hlt. lia.
Qed.

(** X4.  For every success threshold [N >= 1]: from HALF_OPEN with a success
    count of zero, fewer than [N] consecutive successful executions leave
    the breaker HALF_OPEN (counting them), and exactly [N] of them close it
    with [failureCount], [successCount] and [nextAttempt] all zero. *)
Theorem consecutive_successes_close_the_circuit :
  forall (A : Type) (ops : list (M A)) (w : World) (N : Z),
    1 <= N ->
    successThreshold (options (breaker w)) = N ->
    state (breaker w) = HALF_OPEN ->
    successCount (breaker w) = 0 ->
    Forall succeedsOutside ops ->
    (Z.of_nat (List.length ops) < N ->
       state (breaker (executeAll ops w)) = HALF_OPEN /\
       successCount (breaker (executeAll ops w)) = Z.of_nat (List.length ops)) /\
    (Z.of_nat (List.length ops) = N ->
       state (breaker (executeAll ops w)) = CLOSED /\
       failureCount (breaker (executeAll ops w)) = 0 /\
       successCount (breaker (executeAll ops w)) = 0 /\
       nextAttempt (breaker (executeAll ops w)) = 0).
Proof.
  intros A ops w N HN Hthr Hs Hsc Hops. split.
  - intros Hlen.
    destruct (half_open_successes_accumulate ops Hops w Hs ltac:(lia)) as (? & ? & ?).
    split; [assumption | lia].
  - intros Hlen. apply half_open_successes_close; auto; lia.
Qed.

Lemma send_resolved_succeedsOutside net rq :
  (forall n, exists res ms, net rq n = (Resolved res, ms)) ->
  succeedsOutside (send net rq).
Proof.
  intros Hnet w. destruct (Hnet (requests w)) as (res & ms & Hr).
  unfold send. rewrite Hr. eexists _, _. split; reflexivity.
Qed.

Lemma consecutive_successes_close_the_circuit_witness :
  state (breaker (executeAll [Sample.succeeding; Sample.succeeding]
                    Scenario.halfOpen)) = CLOSED.
Proof.
  assert (Hop : succeedsOutside Sample.succeeding).
  { apply send_resolved_succeedsOutside. intros n. eexists _, _. reflexivity. }
  exact (proj1 (proj2 (consecutive_successes_close_the_circuit
                  AxiosResponse [Sample.succeeding; Sample.succeeding]
                  Scenario.halfOpen 2
                  ltac:(lia) eq_refl eq_refl eq_refl
                  (Forall_cons _ Hop (Forall_cons _ Hop (Forall_nil _))))
               eq_refl)).
Defined.

(** X5.  An open breaker recovers: once the clock has passed [nextAttempt],
    [successThreshold] successful executions in a row (the first of which
    makes it HALF_OPEN) end with the breaker CLOSED and its counters and
    [nextAttempt] at zero. *)
Theorem expired_open_circuit_recovers :
  forall (A : Type) (ops : list (M A)) (w : World),
    1 <= successThreshold (options (breaker w)) ->
    state (breaker w) = OPEN ->
    clock w > nextAttempt (breaker w) ->
    Forall succeedsOutside ops ->
    Z.of_nat (List.length ops) = successThreshold (options (breaker w)) ->
    state (breaker (executeAll ops w)) = CLOSED /\
    failureCount (breaker (executeAll ops w)) = 0 /\
    successCount (breaker (executeAll ops w)) = 0 /\
    nextAttempt (breaker (executeAll ops w)) = 0.
Proof.
  intros A ops w HN Hs Hc Hops Hlen.
  assert (Hsame : executeAll ops w = executeAll ops (snd (toHalfOpen w))).
  { destruct ops as [|fn ops]; [cbn in Hlen; lia|].
    cbn [executeAll fold_left]. f_equal. f_equal.
    rewrite execute_probes by assumption.
    rewrite execute_passes; [reflexivity|].
    clear - Hs. open_world w. subst st. unfold_breaker. cbn. discriminate. }
  rewrite Hsame.
  assert (Hh : state (breaker (snd (toHalfOpen w))) = HALF_OPEN /\
               successCount (breaker (snd (toHalfOpen w))) = 0 /\
               options (breaker (snd (toHalfOpen w))) = options (breaker w)).
  { clear - Hs. open_world w. subst st. unfold_breaker. cbn. auto. }
  destruct Hh as (Hh1 & Hh2 & Hh3).
  apply half_open_successes_close; auto; rewrite Hh3; assumption.
Qed.

Lemma expired_open_circuit_recovers_witness :
  state (breaker (executeAll [Sample.succeeding; Sample.succeeding]
                    Sample.trippedAfter)) = CLOSED.
Proof.
  assert (Hop : succeedsOutside Sample.succeeding).
  { apply send_resolved_succeedsOutside. intros n. eexists _, _. reflexivity. }
  exact (proj1 (expired_open_circuit_recovers
                  AxiosResponse [Sample.succeeding; Sample.succeeding]
                  Sample.trippedAfter
                  ltac:(cbn; lia) eq_refl eq_refl
                  (Forall_cons _ Hop (Forall_cons _ Hop (Forall_nil _)))
                  eq_refl)).
Defined.

(** One successful execution while closed. *)
Lemma closed_success {A} (fn : M A) w :
  succeedsOutside fn ->
  state (breaker w) = CLOSED ->
  state (breaker (snd (execute fn w))) = CLOSED /\
  failureCount (breaker (snd (execute fn w))) = 0 /\
  options (breaker (snd (execute fn w))) = options (breaker w).
Proof.
  intros Hfn Hs. rewrite execute_passes by congruence.
  destruct (Hfn w) as (r & w1 & Hrun & Hb). rewrite Hrun. cbn [observe snd].
  rewrite <- Hb. rewrite <- Hb in Hs. clear Hrun Hb w.
  open_world w1. subst st. unfold_breaker. cbn. auto.
Qed.

(** X6.  Only failures in a row count.  While CLOSED, a success wipes the
    failures seen before it: after some failures (too few to open the
    circuit), one success, and then [m] more failures with [m] below the
    threshold, the breaker is CLOSED with a failure count of [m]. *)
Theorem success_restarts_the_failure_count :
  forall (A : Type) (before after : list (M A)) (ok : M A) (w : World),
    state (breaker w) = CLOSED ->
    Forall failsOutside before ->
    failureCount (breaker w) + Z.of_nat (List.length before)
      < failureThreshold (options (breaker w)) ->
    succeedsOutside ok ->
    Forall failsOutside after ->
    Z.of_nat (List.length after) < failureThreshold (options (breaker w)) ->
    state (breaker (executeAll (before ++ ok :: after) w)) = CLOSED /\
    failureCount (breaker (executeAll (before ++ ok :: after) w))
      = Z.of_nat (List.length after).
Proof.
  intros A before after ok w Hs Hbefore Hlt Hok Hafter Hm.
  unfold executeAll. rewrite fold_left_app. cbn [fold_left].
  fold (executeAll before w).
  destruct (closed_failures_accumulate before Hbefore w Hs Hlt) as (Hs1 & _ & Ho1).
  destruct (closed_success ok (executeAll before w) Hok Hs1) as (Hs2 & Hf2 & Ho2).
  fold (executeAll after (snd (execute ok (executeAll before w)))).
  destruct (closed_failures_accumulate after Hafter
              (snd (execute ok (executeAll before w))) Hs2) as (Hs3 & Hf3 & _).
  { rewrite Hf2, Ho2, Ho1. lia. }
  split; [assumption|]. rewrite Hf3, Hf2. lia.
Qed.

Lemma success_restarts_the_failure_count_witness :
  state (breaker (executeAll
           ([] ++ Sample.succeeding :: [Sample.failing 500; Sample.failing 500])
           Scenario.twoStrikes)) = CLOSED /\
  failureCount (breaker (executeAll
           ([] ++ Sample.succeeding :: [Sample.failing 500; Sample.failing 500])
           Scenario.twoStrikes)) = 2.
Proof.
  assert (Hok : succeedsOutside Sample.succeeding).
  { apply send_resolved_succeedsOutside. intros n. eexists _, _. reflexivity. }
  assert (Hko : failsOutside (Sample.failing 500)).
  { apply send_rejected_failsOutside. intros n. eexists _, _. reflexivity. }
  exact (success_restarts_the_failure_count
           AxiosResponse [] [Sample.failing 500; Sample.failing 500]
           Sample.succeeding Scenario.twoStrikes
           eq_refl (Forall_nil _) eq_refl Hok
           (Forall_cons _ Hko (Forall_cons _ Hko (Forall_nil _))) eq_refl).
Defined.

(** X7.  The breaker is transparent for a call it lets through: [execute]
    returns the very value the operation returned, or rethrows the very
    error it threw, and on its own neither sends a request, nor lets time
    pass, nor touches the options. *)
Theorem admitted_call_passes_through :
  forall (A : Type) (fn : M A) (w : World),
    admits w = true ->
    fst (execute fn w) = fst (fn (entered w)) /\
    requests (entered w) = requests w /\
    clock (entered w) = clock w /\
    requests (snd (execute fn w)) = requests (snd (fn (entered w))) /\
    clock (snd (execute fn w)) = clock (snd (fn (entered w))) /\
    options (breaker (snd (execute fn w)))
      = options (breaker (snd (fn (entered w)))).
Proof.
  intros A fn w Ha. rewrite admits_enters by assumption.
  destruct (observe_frame (fn (entered w))) as (Hc & Hr & _ & Ho).
  destruct (entered_frame w) as (Hc' & Hr' & _).
  rewrite observe_fst. auto 10.
Qed.

Lemma admitted_call_passes_through_witness :
  fst (execute (Sample.failing 404) Sample.trippedAfter)
    = Abrupt (Sample.http 404).
Proof.
  exact (proj1 (admitted_call_passes_through
                  AxiosResponse (Sample.failing 404) Sample.trippedAfter eq_refl)).
Defined.

(** X8.  [getStatus] reads the breaker without changing anything, and its
    [remainingTimeMs] is never negative.  When it reports OPEN with a
    positive remaining time, [execute] rejects the call without running
    it; a remaining time of zero does not promise the opposite, since at the
    very instant [nextAttempt] the call is still rejected. *)
Theorem positive_remaining_time_means_rejection :
  forall (w : World),
    getStatus w =
      (Normal (mkStatus (state (breaker w)) (failureCount (breaker w))
                 (successCount (breaker w)) (nextAttempt (breaker w))
                 (Z.max 0 (nextAttempt (breaker w) - clock w))), w) /\
    (forall s, fst (getStatus w) = Normal s ->
       0 <= remainingTimeMs s /\
       (0 < remainingTimeMs s <-> clock w < nextAttempt (breaker w)) /\
       forall (A : Type) (fn : M A),
         status_state s = OPEN ->
         0 < remainingTimeMs s \/ clock w = nextAttempt (breaker w) ->
         execute fn w =
           (Abrupt (JsError (circuitOpenMessage (lastError (breaker w)))), w)).
Proof.
  intros w. split; [reflexivity|].
  intros s Hs. cbn in Hs. injection Hs as <-. cbn.
  repeat split; try lia.
  intros A fn Hst Hr. apply execute_rejects; [assumption | lia].
Qed.

Lemma positive_remaining_time_means_rejection_witness :
  execute Sample.succeeding Sample.trippedBefore =
    (Abrupt (JsError (circuitOpenMessage (lastError (breaker Sample.trippedBefore)))),
     Sample.trippedBefore).
Proof.
  exact (proj2 (proj2 (proj2 (positive_remaining_time_means_rejection
                                Sample.trippedBefore)
                         (mkStatus OPEN 3 0 1000 600) eq_refl))
           AxiosResponse Sample.succeeding eq_refl (or_introl eq_refl)).
Defined.

(** X9.  [reset] is a manual override that always works: whatever the state, the
    counters and the clock were, after [reset] the breaker is CLOSED with
    both counters and [nextAttempt] at zero, its options and last error are
    kept, and the next [execute] runs its operation. *)
Theorem reset_readmits_calls :
  forall (A : Type) (fn : M A) (w : World),
    state (breaker (snd (reset w))) = CLOSED /\
    failureCount (breaker (snd (reset w))) = 0 /\
    successCount (breaker (snd (reset w))) = 0 /\
    nextAttempt (breaker (snd (reset w))) = 0 /\
    lastError (breaker (snd (reset w))) = lastError (breaker w) /\
    options (breaker (snd (reset w))) = options (breaker w) /\
    clock (snd (reset w)) = clock w /\
    requests (snd (reset w)) = requests w /\
    execute fn (snd (reset w)) = observe (fn (snd (reset w))).
Proof.
  intros A fn w.
  assert (H : state (breaker (snd (reset w))) = CLOSED /\
              failureCount (breaker (snd (reset w))) = 0 /\
              successCount (breaker (snd (reset w))) = 0 /\
              nextAttempt (breaker (snd (reset w))) = 0 /\
              lastError (breaker (snd (reset w))) = lastError (breaker w) /\
              options (breaker (snd (reset w))) = options (breaker w) /\
              clock (snd (reset w)) = clock w /\
              requests (snd (reset w)) = requests w).
  { open_world w. unfold_breaker. destruct st; cbn; auto 10. }
  destruct H as (H1 & H2 & H3 & H4 & H5 & H6 & H7 & H8).
  repeat split; try assumption.
  apply execute_passes. rewrite H1. discriminate.
Qed.

(* ------------------------------------------------------------------ *)
(** * More on the retrying client *)

Section ClientResults.

Variable net : Network.

Lemma callOnce_result rq r again w :
  fst (callOnce net rq r again w) =
  match fst (execute (attempt net rq r again) w) with
  | Normal resp => Normal resp
  | Abrupt e => Normal (errorResponse e)
  end.
Proof.
  unfold callOnce, tryCatch, bind, ret.
  destruct (execute _ w) as [[resp|e] w']; reflexivity.
Qed.

Lemma errorResponse_wellShaped e : wellShaped (errorResponse e).
Proof. unfold wellShaped. cbn. split; [reflexivity | discriminate]. Qed.

Lemma okResponse_wellShaped res : wellShaped (okResponse res).
Proof. unfold wellShaped. cbn. split; [discriminate | reflexivity]. Qed.

Lemma callOnce_wellShaped rq r again w :
  ((0 <? r)%nat = true ->
   forall v resp, fst (again v) = Normal resp -> wellShaped resp) ->
  exists resp, fst (callOnce net rq r again w) = Normal resp /\ wellShaped resp.
Proof.
  intros Hagain. rewrite callOnce_result.
  destruct (admits w) eqn:E.
  - rewrite admits_enters, observe_fst, attempt_cases by assumption.
    destruct (net rq (requests (entered w))) as [[res|e] ms].
    + eexists. split; [reflexivity | apply okResponse_wellShaped].
    + destruct (0 <? r)%nat; cbn [andb].
      * destruct (isRetryableError e).
        -- destruct (again _) as [[resp|e'] v] eqn:Ev; cbn [fst].
           ++ eexists. split; [reflexivity|].
              eapply Hagain; [reflexivity|]. rewrite Ev. reflexivity.
           ++ eexists. split; [reflexivity | apply errorResponse_wellShaped].
        -- eexists. split; [reflexivity | apply errorResponse_wellShaped].
      * eexists. split; [reflexivity | apply errorResponse_wellShaped].
  - rewrite admits_rejects by assumption.
    eexists. split; [reflexivity | apply errorResponse_wellShaped].
Qed.

Lemma get_wellShaped path r :
  forall w resp, fst (get net path r w) = Normal resp -> wellShaped resp.
Proof.
  induction r as [|r IH]; intros w resp H; rewrite get_unfold in H.
  - destruct (callOnce_wellShaped (mkRequest GET path None) 0
                (get net path (pred 0)) w ltac:(discriminate)) as (x & Hx & Hs).
    congruence.
  - destruct (callOnce_wellShaped (mkRequest GET path None) (S r)
                (get net path r) w (fun _ => IH)) as (x & Hx & Hs).
    cbn [pred] in H. congruence.
Qed.

Lemma post_wellShaped path payload r :
  forall w resp, fst (post net path payload r w) = Normal resp -> wellShaped resp.
Proof.
  induction r as [|r IH]; intros w resp H; rewrite post_unfold in H.
  - destruct (callOnce_wellShaped (mkRequest POST path (Some payload)) 0
                (post net path payload (pred 0)) w ltac:(discriminate))
      as (x & Hx & Hs).
    congruence.
  - destruct (callOnce_wellShaped (mkRequest POST path (Some payload)) (S r)
                (post net path payload r) w (fun _ => IH)) as (x & Hx & Hs).
    cbn [pred] in H. congruence.
Qed.

(** The state of the breaker does not keep an admitted call's own retries
    out: once a call has been let in, the breaker is not OPEN. *)
Lemma admits_inside w v :
  admits w = true -> breaker v = breaker (entered w) -> admits v = true.
Proof.
  unfold admits, entered. intros Ha ->.
  destruct (state_eqb_spec (state (breaker w)) OPEN) as [Hs|Hs].
  - clear Ha. open_world w. subst st. reflexivity.
  - destruct (state_eqb_spec (state (breaker w)) OPEN); [contradiction | reflexivity].
Qed.

Lemma callOnce_first_resolved rq r again w res ms :
  admits w = true ->
  net rq (requests w) = (Resolved res, ms) ->
  callOnce net rq r again w =
    (Normal (okResponse res), snd (onSuccess (afterRequest ms (entered w)))).
Proof.
  intros Ha Hnet.
  unfold callOnce, tryCatch at 1, bind.
  rewrite admits_enters, attempt_cases by assumption.
  destruct (entered_frame w) as (_ & -> & _). rewrite Hnet. reflexivity.
Qed.

Lemma callOnce_first_terminal rq r again w e ms :
  admits w = true ->
  net rq (requests w) = (Rejected e, ms) ->
  r = 0%nat \/ isRetryableError e = false ->
  callOnce net rq r again w =
    (Normal (errorResponse e),
     snd (onFailure (asError e) (afterRequest ms (entered w)))).
Proof.
  intros Ha Hnet Hstop.
  unfold callOnce, tryCatch at 1, bind.
  rewrite admits_enters, attempt_cases by assumption.
  destruct (entered_frame w) as (_ & -> & _). rewrite Hnet.
  assert (Hno : (0 <? r)%nat && isRetryableError e = false).
  { destruct Hstop as [-> | ->]; [reflexivity | apply andb_false_r]. }
  rewrite Hno. reflexivity.
Qed.

Lemma callOnce_first_retried rq r again w e ms resp v :
  admits w = true ->
  net rq (requests w) = (Rejected e, ms) ->
  (0 <? r)%nat = true ->
  isRetryableError e = true ->
  again (snd (sleep (1000 * (3 - Z.of_nat r)) (afterRequest ms (entered w))))
    = (Normal resp, v) ->
  callOnce net rq r again w = (Normal resp, snd (onSuccess v)).
Proof.
  intros Ha Hnet Hr He Hagain.
  unfold callOnce, tryCatch at 1, bind.
  rewrite admits_enters, attempt_cases by assumption.
  destruct (entered_frame w) as (_ & -> & _). rewrite Hnet, Hr, He.
  cbn [andb]. rewrite Hagain. reflexivity.
Qed.

Lemma callOnce_rejected rq r again w :
  admits w = false ->
  callOnce net rq r again w =
    (Normal (errorResponse (JsError (circuitOpenMessage (lastError (breaker w))))), w).
Proof.
  intros Ha. unfold callOnce, tryCatch at 1, bind.
  rewrite admits_rejects by assumption. reflexivity.
Qed.

End ClientResults.

Section Retrying.

(** [f] is [get net path] or [post net path payload]: a method whose body
    is [callOnce] around itself. *)
Variable net : Network.
Variable rq : Request.
Variable f : nat -> M ApiResponse.
Hypothesis f_unfold : forall r, f r = callOnce net rq r (f (pred r)).
Hypothesis always_retryable :
  forall n, exists e ms, net rq n = (Rejected e, ms) /\ isRetryableError e = true.

Lemma retrying_exhausts r :
  forall w,
    admits w = true ->
    requests (snd (f r w)) = (requests w + r + 1)%nat /\
    clock (snd (f r w)) = clock w + elapsed net rq (requests w) (S r) + backoff r /\
    exists e ms,
      net rq (requests w + r)%nat = (Rejected e, ms) /\
      fst (f r w) = Normal (errorResponse e).
Proof.
  induction r as [|r IH]; intros w Ha; rewrite f_unfold;
    destruct (always_retryable (requests w)) as (e & ms & Hnet & He).
  - rewrite (callOnce_first_terminal net rq 0 _ w e ms Ha Hnet (or_introl eq_refl)).
    cbn [fst snd].
    destruct (onFailure_frame (asError e) (afterRequest ms (entered w)))
      as (Hc & Hr & _).
    destruct (entered_frame w) as (Hc' & Hr' & _).
    rewrite Hc, Hr. cbn [afterRequest clock requests elapsed backoff].
    rewrite Hc', Hr', Hnet. cbn [snd]. repeat split; try lia.
    exists e, ms. rewrite Nat.add_0_r. auto.
  - cbn [pred].
    set (w1 := snd (sleep (1000 * (3 - Z.of_nat (S r))) (afterRequest ms (entered w)))).
    assert (Ha1 : admits w1 = true) by (apply (admits_inside w); auto).
    destruct (IH w1 Ha1) as (Hreq & Hclk & e' & ms' & Hnet' & Hres).
    destruct (f r w1) as [c v] eqn:Ev. cbn [fst snd] in *. subst c.
    rewrite (callOnce_first_retried net rq (S r) (f r) w e ms _ v Ha Hnet
               eq_refl He Ev).
    cbn [fst snd].
    destruct (onSuccess_frame v) as (Hc & Hr & _).
    destruct (entered_frame w) as (Hc' & Hr' & _).
    rewrite Hc, Hr, Hreq, Hclk.
    assert (Hr1 : requests w1 = S (requests w)) by (cbn; congruence).
    assert (Hc1 : clock w1 = clock w + Z.of_nat ms
                             + Z.max 0 (1000 * (3 - Z.of_nat (S r))))
      by (cbn; congruence).
    rewrite Hr1, Hc1. repeat split.
    + lia.
    + change (elapsed net rq (requests w) (S (S r)))
        with (Z.of_nat (snd (net rq (requests w)))
              + elapsed net rq (S (requests w)) (S r)).
      change (backoff (S r))
        with (Z.max 0 (1000 * (3 - Z.of_nat (S r))) + backoff r).
      rewrite Hnet. cbn [snd]. lia.
    + exists e', ms'. split; [|reflexivity].
      rewrite Hr1 in Hnet'.
      replace (requests w + S r)%nat with (S (requests w) + r)%nat by lia.
      exact Hnet'.
Qed.

End Retrying.

Lemma backoff_small : backoff 0 = 0 /\ backoff 1 = 2000 /\ backoff 2 = 3000.
Proof. repeat split. Qed.

Lemma backoff_saturates r : (2 <= r)%nat -> backoff r = 3000.
Proof.
  induction 1 as [|r Hr IH]; [reflexivity|].
  change (backoff (S r)) with (Z.max 0 (1000 * (3 - Z.of_nat (S r))) + backoff r).
  rewrite IH. lia.
Qed.



(** X12.  The waiting between attempts.  A call that uses all of its [r] retries
    takes the time of its [r + 1] requests plus [backoff r]: the waits are
    [1000 * (3 - retries)] ms where that is positive, so 2000 ms for one
    retry, 1000 + 2000 ms for two, and never more than 3000 ms in all;
    with three or more retries the surplus ones are sent without any
    wait. *)
Theorem backoff_is_capped :
  forall (net : Network) (path : string) (payload : Payload) (r : nat) (w : World),
    admits w = true ->
    (forall rq n, exists e ms,
        net rq n = (Rejected e, ms) /\ isRetryableError e = true) ->
    clock (snd (get net path r w))
      = clock w + elapsed net (mkRequest GET path None) (requests w) (S r)
        + backoff r /\
    clock (snd (post net path payload r w))
      = clock w + elapsed net (mkRequest POST path (Some payload)) (requests w) (S r)
        + backoff r /\
    backoff r = (match r with O => 0 | S O => 2000 | _ => 3000 end).
Proof.
  intros net path payload r w Ha Hnet. split; [|split].
  - destruct (retrying_exhausts net (mkRequest GET path None) (get net path)
                (get_unfold net path) (Hnet _) r w Ha) as (_ & H2 & _).
    exact H2.
  - destruct (retrying_exhausts net (mkRequest POST path (Some payload))
                (post net path payload) (post_unfold net path payload)
                (Hnet _) r w Ha) as (_ & H2 & _).
    exact H2.
  - destruct r as [|[|r]]; [reflexivity | reflexivity |].
    apply backoff_saturates. lia.
Qed.

Lemma backoff_is_capped_witness :
  clock (snd (get (Sample.alwaysStatus 503) "/ping" 5 Sample.fresh))
    = 0 + elapsed (Sample.alwaysStatus 503) (mkRequest GET "/ping" None) 0 6
      + backoff 5.
Proof.
  exact (proj1 (backoff_is_capped
                  (Sample.alwaysStatus 503) "/ping" (Json "{}") 5
                  Sample.fresh eq_refl
                  (fun rq n => ex_intro _ (Sample.http 503)
                     (ex_intro _ 10%nat (conj eq_refl eq_refl))))).
Defined.

(** X10.  [get] and [post] never throw: every failure, a rejection by the open
    breaker included, comes back as a response.  The response is
    well-shaped: with [success] it carries data and no error, without
    [success] an error and no data. *)
Theorem client_always_answers :
  forall (net : Network) (path : string) (payload : Payload) (r : nat) (w : World),
    (exists resp, fst (get net path r w) = Normal resp /\ wellShaped resp) /\
    (exists resp, fst (post net path payload r w) = Normal resp /\ wellShaped resp).
Proof.
  intros net path payload r w. split.
  - destruct (get_returns net path r w) as [resp H].
    exists resp. split; [exact H | exact (get_wellShaped net path r w resp H)].
  - destruct (post_returns net path payload r w) as [resp H].
    exists resp. split; [exact H | exact (post_wellShaped net path payload r w resp H)].
Qed.

(** X13.  A call that is not retried is reported to the breaker exactly once.
    When the breaker lets the call in and the first request succeeds, the
    response is the success and the breaker is told one success; when the
    first request fails and there is no retry left or the error is not
    retryable, the response is that failure and the breaker is told one
    failure.  In both cases one request is sent. *)
Theorem unretried_call_is_reported_once :
  forall (net : Network) (path : string) (r : nat) (w : World) (ms : nat),
    admits w = true ->
    (forall res,
       net (mkRequest GET path None) (requests w) = (Resolved res, ms) ->
       get net path r w =
         (Normal (okResponse res),
          snd (onSuccess (afterRequest ms (entered w))))) /\
    (forall e,
       net (mkRequest GET path None) (requests w) = (Rejected e, ms) ->
       r = 0%nat \/ isRetryableError e = false ->
       get net path r w =
         (Normal (errorResponse e),
          snd (onFailure (asError e) (afterRequest ms (entered w))))) /\
    (forall payload res,
       net (mkRequest POST path (Some payload)) (requests w) = (Resolved res, ms) ->
       post net path payload r w =
         (Normal (okResponse res),
          snd (onSuccess (afterRequest ms (entered w))))) /\
    (forall payload e,
       net (mkRequest POST path (Some payload)) (requests w) = (Rejected e, ms) ->
       r = 0%nat \/ isRetryableError e = false ->
       post net path payload r w =
         (Normal (errorResponse e),
          snd (onFailure (asError e) (afterRequest ms (entered w))))).
Proof.
  intros net path r w ms Ha. repeat split.
  - intros res Hnet. rewrite get_unfold.
    apply callOnce_first_resolved; assumption.
  - intros e Hnet Hstop. rewrite get_unfold.
    apply callOnce_first_terminal; assumption.
  - intros payload res Hnet. rewrite post_unfold.
    apply callOnce_first_resolved; assumption.
  - intros payload e Hnet Hstop. rewrite post_unfold.
    apply callOnce_first_terminal; assumption.
Qed.

Lemma unretried_call_is_reported_once_witness :
  get (Sample.alwaysStatus 404) "/ping" 2 Scenario.twoStrikes =
    (Normal (errorResponse (Sample.http 404)),
     snd (onFailure (asError (Sample.http 404))
            (afterRequest 10 (entered Scenario.twoStrikes)))).
Proof.
  exact (proj1 (proj2 (unretried_call_is_reported_once
                         (Sample.alwaysStatus 404) "/ping" 2 Scenario.twoStrikes 10
                         eq_refl))
           (Sample.http 404) eq_refl (or_intror eq_refl)).
Defined.

(** X14.  While the breaker rejects calls, [get] and [post] fail fast: no request
    is sent, nothing in the world changes, and the caller receives a failure
    with status 0 and the code CLIENT_ERROR, the circuit-open text being its
    message. *)
Theorem open_circuit_fails_fast :
  forall (net : Network) (path : string) (payload : Payload) (r : nat) (w : World),
    admits w = false ->
    get net path r w =
      (Normal (mkApiResponse None
         (Some (mkApiError "CLIENT_ERROR"
                  (circuitOpenMessage (lastError (breaker w))) NoDetails))
         0 false), w) /\
    post net path payload r w =
      (Normal (mkApiResponse None
         (Some (mkApiError "CLIENT_ERROR"
                  (circuitOpenMessage (lastError (breaker w))) NoDetails))
         0 false), w).
Proof.
  intros net path payload r w Ha. split.
  - rewrite get_unfold. apply callOnce_rejected. assumption.
  - rewrite post_unfold. apply callOnce_rejected. assumption.
Qed.

Lemma open_circuit_fails_fast_witness :
  get Sample.healthy "/ping" 2 Sample.trippedAt =
    (Normal (mkApiResponse None
       (Some (mkApiError "CLIENT_ERROR"
                (circuitOpenMessage (lastError (breaker Sample.trippedAt)))
                NoDetails))
       0 false), Sample.trippedAt).
Proof.
  exact (proj1 (open_circuit_fails_fast
                  Sample.healthy "/ping" (Json "{}") 2 Sample.trippedAt eq_refl)).
Defined.

(** X15.  The message of a classified Axios error is never empty: it is the
    server's message when that is present and not empty, else the Axios
    message when that is not empty, else "HTTP Error" followed by the status
    ("undefined" when there is none). *)
Theorem classified_message_is_never_empty :
  forall st cd sm m,
    message (handleError (AxiosError st cd sm m)) <> "" /\
    (truthyStr sm = true ->
       Some (message (handleError (AxiosError st cd sm m))) = sm) /\
    (truthyStr sm = false -> m <> "" ->
       message (handleError (AxiosError st cd sm m)) = m) /\
    (truthyStr sm = false -> m = "" ->
       message (handleError (AxiosError st cd sm m)) = "HTTP Error " ++ showNum st).
Proof.
  intros st cd sm m. unfold handleError, orStr. cbn [message].
  destruct (truthyStr sm) eqn:Esm.
  - rewrite Esm. destruct sm as [t|]; [|discriminate]. cbn in Esm.
    repeat split; try discriminate.
    intros ->. cbn in Esm. discriminate.
  - cbn [truthyStr]. destruct (String.eqb_spec m "") as [->|Hm]; cbn [negb].
    + repeat split; try discriminate; try contradiction; reflexivity.
    + cbn [truthyStr]. destruct (String.eqb_spec m ""); [contradiction|]. cbn.
      repeat split; try discriminate; try contradiction; auto.
Qed.

Lemma classified_message_is_never_empty_witness :
  message (handleError (AxiosError (Some 418) None (Some "") ""))
    = "HTTP Error 418".
Proof.
  exact (proj2 (proj2 (proj2 (classified_message_is_never_empty
                                (Some 418) None (Some "") "")))
           eq_refl eq_refl).
Defined.

(* ------------------------------------------------------------------ *)
(** * Environment variables *)

Lemma truthyStr_false s : truthyStr s = false <-> s = None \/ s = Some "".
Proof.
  destruct s as [t|]; cbn.
  - rewrite negb_false_iff, String.eqb_eq. split.
    + intros ->. auto.
    + intros [H|H]; congruence.
  - split; auto.
Qed.

Lemma truthyStr_true s : truthyStr s = true <-> exists t, s = Some t /\ t <> "".
Proof.
  destruct s as [t|]; cbn.
  - rewrite negb_true_iff, String.eqb_neq. split.
    + intros H. exists t. auto.
    + intros (t' & Ht & Hne). congruence.
  - split; [discriminate | intros (t & H & _); discriminate].
Qed.

Lemma processEnv_falsy env key :
  truthyEnv (processEnv env key) = false <->
  env key = Some "" \/ (env key = None /\ inherited key = false).
Proof.
  unfold processEnv. destruct (env key) as [t|].
  - cbn [truthyEnv]. rewrite negb_false_iff, String.eqb_eq. split.
    + intros ->. auto.
    + intros [H | [H _]]; congruence.
  - destruct (inherited key); cbn [truthyEnv]; split; auto;
      try discriminate; intros [H | [_ H]]; discriminate.
Qed.

Lemma processEnv_own env key :
  inherited key = false ->
  processEnv env key = ofOption (env key).
Proof. unfold processEnv. intros ->. destruct (env key); reflexivity. Qed.

Lemma truthy_ofOption d : truthyEnv (ofOption d) = truthyStr d.
Proof. destruct d; reflexivity. Qed.

Lemma truthy_string v :
  truthyEnv v = true -> (forall n, v <> EnvInherited n) ->
  exists s, v = EnvString s /\ s <> "".
Proof.
  destruct v as [|s|n]; cbn; intros H Hn.
  - discriminate.
  - exists s. split; [reflexivity|]. apply String.eqb_neq, negb_true_iff, H.
  - exfalso. apply (Hn n). reflexivity.
Qed.

(** X16.  What a required variable can be.  [getEnv] with [required = true]
    throws exactly when [process.env[key]] is falsy and the default is unset
    or empty; otherwise it returns a truthy value, which is a non-empty
    string unless [key] names a member of [Object.prototype].
    [process.env[key]] is falsy exactly when the variable is set to the
    empty string, or is not set and [key] names no such member; for a falsy
    variable a non-required [getEnv] answers with the default.
    [getRequiredEnv] throws exactly when [process.env[key]] is falsy and
    otherwise returns [process.env[key]] itself: the variable's non-empty
    value or, for an unset [key] such as "toString", the inherited
    member. *)
Theorem required_variable_is_never_empty :
  forall (env : Env) (key : string) (d : option string),
    (forall v, EnvUtil.getEnv env key d true = Normal v ->
       truthyEnv v = true /\
       (inherited key = false -> exists s, v = EnvString s /\ s <> "")) /\
    ((exists e, EnvUtil.getEnv env key d true = Abrupt e) <->
       truthyEnv (processEnv env key) = false /\ truthyStr d = false) /\
    (truthyEnv (processEnv env key) = false ->
       EnvUtil.getEnv env key d false = Normal (ofOption d)) /\
    (forall v, EnvUtil.getRequiredEnv env key = Normal v ->
       v = processEnv env key /\ truthyEnv v = true /\
       (inherited key = false ->
          exists s, env key = Some s /\ s <> "" /\ v = EnvString s)) /\
    ((exists e, EnvUtil.getRequiredEnv env key = Abrupt e) <->
       truthyEnv (processEnv env key) = false) /\
    (truthyEnv (processEnv env key) = false <->
       env key = Some "" \/ (env key = None /\ inherited key = false)) /\
    (env key = None -> inherited key = true ->
       EnvUtil.getRequiredEnv env key = Normal (EnvInherited key)).
Proof.
  intros env key d.
  assert (Hstr : inherited key = false -> forall n, processEnv env key <> EnvInherited n).
  { intros Hk n. rewrite (processEnv_own env key Hk). destruct (env key); discriminate. }
  pose proof (processEnv_falsy env key) as Hfalsy.
  unfold EnvUtil.getRequiredEnv, EnvUtil.getEnv. cbn [andb truthyStr negb].
  destruct (truthyEnv (processEnv env key)) eqn:Ev; cbn [negb andb].
  - rewrite Ev. cbn [negb].
    split; [|split; [|split; [|split; [|split; [|split]]]]].
    + intros v [= <-]. split; [exact Ev|]. intros Hk.
      apply truthy_string; auto.
    + split; [intros [e H]; discriminate | intros [H _]; discriminate].
    + discriminate.
    + intros v [= <-]. split; [reflexivity|]. split; [exact Ev|]. intros Hk.
      destruct (truthy_string _ Ev (Hstr Hk)) as (s & Hs & Hne).
      exists s. split; [|auto].
      rewrite (processEnv_own env key Hk) in Hs.
      destruct (env key) as [t|]; [|discriminate].
      injection Hs as ->. reflexivity.
    + split; [intros [e H]; discriminate | discriminate].
    + exact Hfalsy.
    + intros Hn Hk. unfold processEnv. rewrite Hn, Hk. reflexivity.
  - split; [|split; [|split; [|split; [|split; [|split]]]]].
    + destruct (truthyStr d) eqn:Ed; cbn [negb]; [|discriminate].
      intros v [= <-]. rewrite truthy_ofOption. split; [exact Ed|]. intros _.
      apply truthyStr_true in Ed as (t & -> & Hne). exists t. auto.
    + destruct (truthyStr d); cbn [negb]; split.
      * intros [e H]; discriminate.
      * intros [_ H]; discriminate.
      * auto.
      * intros _. eauto.
    + reflexivity.
    + discriminate.
    + split; eauto.
    + exact Hfalsy.
    + intros Hn Hk. exfalso. unfold processEnv in Ev. rewrite Hn, Hk in Ev.
      discriminate.
Qed.

Lemma required_variable_is_never_empty_witness :
  EnvUtil.getEnv (fun _ => Some "") "NEXT_PUBLIC_APP_URL"
    (Some "http://localhost:3000") false
  = Normal (EnvString "http://localhost:3000").
Proof.
  exact (proj1 (proj2 (proj2 (required_variable_is_never_empty
                                (fun _ => Some "") "NEXT_PUBLIC_APP_URL"
                                (Some "http://localhost:3000"))))
           eq_refl).
Defined.

(** X17.  [getBoolEnv] throws exactly when the variable is not set and
    [key] names a member of [Object.prototype] ("toString", "constructor",
    ...): the inherited member has no [toLowerCase], and the call raises a
    [TypeError].  Whenever it returns, the result is true exactly when the
    variable is set, not empty, and spells "true" in any letter case, or
    when it is unset or empty and the default is true. *)
Theorem boolean_variable_reading :
  forall (env : Env) (key : string) (d : bool),
    ((exists e, EnvUtil.getBoolEnv env key d = Abrupt e) <->
       env key = None /\ inherited key = true) /\
    (env key = None -> inherited key = true ->
       EnvUtil.getBoolEnv env key d =
         Abrupt (JsError "value.toLowerCase is not a function")) /\
    (forall b, EnvUtil.getBoolEnv env key d = Normal b ->
       (b = true <->
          (exists v, env key = Some v /\ v <> "" /\ toLowerCase v = "true") \/
          ((env key = None \/ env key = Some "") /\ d = true))).
Proof.
  intros env key d. unfold EnvUtil.getBoolEnv, EnvUtil.getEnv, processEnv.
  cbn [andb ofOption].
  destruct (env key) as [t|] eqn:Et.
  - cbn [truthyEnv]. destruct (String.eqb_spec t "") as [->|Hne]; cbn [negb].
    + split; [|split].
      * split; [intros [e H]; discriminate | intros [H _]; discriminate].
      * discriminate.
      * intros b [= <-]. split.
        -- intros ->. right. auto.
        -- intros [(v & [= <-] & Hv & _) | (_ & H)]; [congruence | exact H].
    + split; [|split].
      * split; [intros [e H]; discriminate | intros [H _]; discriminate].
      * discriminate.
      * intros b [= <-]. rewrite String.eqb_eq. split.
        -- intros H. left. exists t. auto.
        -- intros [(v & [= <-] & _ & H) | ([H|H] & _)]; congruence.
  - destruct (inherited key) eqn:Ek; cbn [truthyEnv].
    + split; [|split].
      * split; [auto | eauto].
      * reflexivity.
      * discriminate.
    + split; [|split].
      * split; [intros [e H]; discriminate | intros [_ H]; discriminate].
      * discriminate.
      * intros b [= <-]. split.
        -- intros ->. right. auto.
        -- intros [(v & Hv & _) | (_ & H)]; [discriminate | exact H].
Qed.

Lemma boolean_variable_reading_witness :
  EnvUtil.getBoolEnv (fun _ => None) "toString" true =
    Abrupt (JsError "value.toLowerCase is not a function").
Proof.
  exact (proj1 (proj2 (boolean_variable_reading (fun _ => None) "toString" true))
           eq_refl eq_refl).
Defined.

(* ------------------------------------------------------------------ *)
(** * The environment validator *)

Import EnvValidator.

Lemma key_eqb_spec a b : reflect (a = b) (key_eqb a b).
Proof. destruct a, b; constructor; congruence. Qed.

Lemma length_zero_forallb {A} (f : A -> bool) l :
  (List.length (filter f l) =? 0)%nat = forallb (fun x => negb (f x)) l.
Proof.
  induction l as [|x l IH]; [reflexivity|]. cbn.
  destruct (f x); cbn; [reflexivity | exact IH].
Qed.

(** The names the validator looks up are not members of
    [Object.prototype], so only the variables that are set matter. *)
Lemma unset_own env v :
  inherited v = false -> unset env v = negb (truthyStr (env v)).
Proof.
  intros Hv. unfold unset. rewrite (processEnv_own env v Hv), truthy_ofOption.
  reflexivity.
Qed.

Lemma required_not_inherited service v :
  In v (REQUIRED_ENV_VARS service) -> inherited v = false.
Proof.
  destruct service; cbn [REQUIRED_ENV_VARS In];
    intros H; repeat destruct H as [<-|H]; try reflexivity; contradiction.
Qed.

Lemma validateServiceEnv_valid env service :
  valid (validateServiceEnv env service) = true <->
  forall v, In v (REQUIRED_ENV_VARS service) -> truthyStr (env v) = true.
Proof.
  unfold validateServiceEnv. cbn [valid].
  rewrite length_zero_forallb, forallb_forall.
  split; intros H v Hv; specialize (H v Hv);
    rewrite (unset_own env v (required_not_inherited service v Hv)) in *.
  - rewrite negb_involutive in H. exact H.
  - rewrite negb_involutive. exact H.
Qed.

(** X18.  [validateServiceEnv] declares a service valid exactly when every
    variable it requires is set to a non-empty value, and lists as missing
    exactly the required variables that are unset or empty, in the order of
    their declaration. *)
Theorem service_validation_is_exact :
  forall (env : Env) (service : ServiceKey),
    (valid (validateServiceEnv env service) = true <->
       forall v, In v (REQUIRED_ENV_VARS service) -> truthyStr (env v) = true) /\
    (forall v, In v (missing (validateServiceEnv env service)) <->
       In v (REQUIRED_ENV_VARS service) /\ truthyStr (env v) = false) /\
    missing (validateServiceEnv env service)
      = filter (fun v => negb (truthyStr (env v))) (REQUIRED_ENV_VARS service) /\
    (valid (validateServiceEnv env service) = true <->
       missing (validateServiceEnv env service) = []) /\
    serviceName (validateServiceEnv env service) = service.
Proof.
  intros env service. split; [apply validateServiceEnv_valid|].
  unfold validateServiceEnv. cbn [valid missing serviceName].
  split; [|split; [|split]].
  - intros v. rewrite filter_In. split.
    + intros [Hv H]. split; [exact Hv|].
      rewrite (unset_own env v (required_not_inherited service v Hv)) in H.
      apply negb_true_iff. exact H.
    + intros [Hv H]. split; [exact Hv|].
      rewrite (unset_own env v (required_not_inherited service v Hv)).
      apply negb_true_iff. exact H.
  - apply filter_ext_in. intros v Hv.
    apply unset_own, (required_not_inherited service v Hv).
  - rewrite Nat.eqb_eq. apply length_zero_iff_nil.
  - reflexivity.
Qed.

Lemma lookup_assignKey m k vars s :
  lookupKey (assignKey m k vars) s =
  if key_eqb k s then Some vars else lookupKey m s.
Proof.
  induction m as [|[k' v'] m IH]; cbn.
  - reflexivity.
  - destruct (key_eqb_spec k' k) as [->|Hk]; cbn.
    + destruct (key_eqb k s); reflexivity.
    + rewrite IH. destruct (key_eqb_spec k' s) as [->|Hs]; [|reflexivity].
      destruct (key_eqb_spec k s); [congruence | reflexivity].
Qed.

Lemma validateLoop_valid env services : forall acc,
  allValid (validateLoop env services acc) =
  allValid acc && forallb (fun s => valid (validateServiceEnv env s)) services.
Proof.
  induction services as [|s services IH]; intros acc; cbn [validateLoop forallb].
  - rewrite andb_true_r. reflexivity.
  - rewrite IH. destruct (valid (validateServiceEnv env s)); cbn [negb allValid];
      destruct (allValid acc); reflexivity.
Qed.

Lemma validateLoop_missing env services : forall acc s,
  lookupKey (allMissing (validateLoop env services acc)) s =
  if existsb (key_eqb s) services && negb (valid (validateServiceEnv env s))
  then Some (missing (validateServiceEnv env s))
  else lookupKey (allMissing acc) s.
Proof.
  induction services as [|k services IH]; intros acc s; cbn [validateLoop existsb].
  - reflexivity.
  - rewrite IH.
    destruct (existsb (key_eqb s) services
              && negb (valid (validateServiceEnv env s))) eqn:E.
    + rewrite orb_comm. apply andb_prop in E as [E1 E2]. rewrite E1, E2. reflexivity.
    + destruct (key_eqb_spec s k) as [->|Hk]; cbn [orb].
      * destruct (valid (validateServiceEnv env k)) eqn:Ev;
          cbn [negb andb allMissing]; [reflexivity|].
        rewrite lookup_assignKey.
        destruct (key_eqb_spec k k); [reflexivity | congruence].
      * rewrite E.
        destruct (valid (validateServiceEnv env k)); cbn [negb]; [reflexivity|].
        cbn [allMissing]. rewrite lookup_assignKey.
        destruct (key_eqb_spec k s); [congruence | reflexivity].
Qed.

(** X19.  [validateEnv] over a list of services is valid exactly when each of
    them is, and its [missing] record has an entry for a service exactly
    when the service is listed and invalid, the entry being that service's
    missing variables.  Without a list all four services are validated; with
    an empty list nothing is, and the result is valid. *)
Theorem environment_validation_is_exact :
  forall (env : Env) (services : list ServiceKey),
    (allValid (validateEnv env (Some services)) = true <->
       forall s, In s services -> valid (validateServiceEnv env s) = true) /\
    (forall s,
       lookupKey (allMissing (validateEnv env (Some services))) s =
         if existsb (key_eqb s) services && negb (valid (validateServiceEnv env s))
         then Some (missing (validateServiceEnv env s))
         else None) /\
    validateEnv env None = validateEnv env (Some allServices) /\
    validateEnv env (Some []) = mkEnvValidation true [].
Proof.
  intros env services. unfold validateEnv. split; [|split; [|split]].
  - rewrite validateLoop_valid. cbn [allValid andb]. apply forallb_forall.
  - intros s. rewrite validateLoop_missing. reflexivity.
  - reflexivity.
  - reflexivity.
Qed.

Lemma unset_required env :
  (exists s v, In v (REQUIRED_ENV_VARS s) /\ unset env v = true) <->
  allValid (validateEnv env None) = false.
Proof.
  unfold validateEnv. rewrite validateLoop_valid. cbn [allValid andb].
  rewrite <- not_true_iff_false, forallb_forall. split.
  - intros (s & v & Hv & Hu) H.
    specialize (H s ltac:(destruct s; cbn; tauto)).
    apply (proj1 (validateServiceEnv_valid env s)) with (v := v) in H;
      [|exact Hv].
    rewrite (unset_own env v (required_not_inherited s v Hv)), H in Hu.
    discriminate.
  - intros H.
    destruct (forallb (fun s => valid (validateServiceEnv env s)) allServices) eqn:E.
    + exfalso. apply H. apply forallb_forall. exact E.
    + clear H. unfold allServices in E. cbn [forallb] in E.
      assert (Hone : forall s, valid (validateServiceEnv env s) = false ->
                exists v, In v (REQUIRED_ENV_VARS s) /\ unset env v = true).
      { intros s Hs. unfold validateServiceEnv in Hs. cbn [valid] in Hs.
        rewrite length_zero_forallb in Hs.
        rewrite <- not_true_iff_false, forallb_forall in Hs.
        destruct (existsb (unset env) (REQUIRED_ENV_VARS s)) eqn:Ex.
        - apply existsb_exists in Ex. exact Ex.
        - exfalso. apply Hs. intros v Hv.
          destruct (unset env v) eqn:Eu; [|reflexivity].
          assert (existsb (unset env) (REQUIRED_ENV_VARS s) = true)
            by (apply existsb_exists; eauto).
          congruence. }
      repeat rewrite andb_false_iff in E.
      destruct E as [E|[E|[E|[E|E]]]]; try discriminate;
        apply Hone in E; destruct E as (v & Hv & Hu); eauto.
Qed.

(** X20.  When the start-up checks stop the process.  [validateEnvOrThrow] throws
    exactly in production, with [throwInProduction] set, when some required
    variable of some service is unset or empty.
    [validateRuntimeEnvironment] throws exactly in production when
    NEXT_PUBLIC_APP_URL or one of the four API keys is unset or empty;
    outside production neither of them ever throws. *)
Theorem startup_checks_throw_only_in_production :
  forall (env : Env),
    (forall flag,
       (exists e, validateEnvOrThrow env flag = Abrupt e) <->
       inProduction env = true /\ flag = true /\
       exists s v, In v (REQUIRED_ENV_VARS s) /\ unset env v = true) /\
    ((exists e, validateRuntimeEnvironment env = Abrupt e) <->
       inProduction env = true /\
       (unset env "NEXT_PUBLIC_APP_URL" = true \/
        exists k, In k API_KEYS /\ unset env k = true)).
Proof.
  intros env. split.
  - intros flag. rewrite unset_required. unfold validateEnvOrThrow.
    destruct (allValid (validateEnv env None)); cbn [negb andb].
    + split; [intros [e H]; discriminate | intros (_ & _ & H); discriminate].
    + destruct (inProduction env); cbn [andb].
      * destruct flag.
        -- split; [auto | eauto].
        -- split; [intros [e H]; discriminate | intros (_ & H & _); discriminate].
      * split; [intros [e H]; discriminate | intros (H & _); discriminate].
  - unfold validateRuntimeEnvironment, validateEnvironment, REQUIRED_VARS,
           checkRequired, EnvUtil.getEnv, unset.
    cbn [andb negb truthyStr].
    destruct (truthyEnv (processEnv env "NEXT_PUBLIC_APP_URL")) eqn:Eu;
      cbn [negb andb].
    + rewrite Eu. cbn [negb].
      destruct (filter (fun v => negb (truthyEnv (processEnv env v))) API_KEYS)
        as [|k ks] eqn:Ef.
      * cbn [List.length Nat.ltb Nat.leb].
        split; [intros [e H]; discriminate|].
        intros (_ & [H | (k & Hk & Hu)]); [discriminate|].
        assert (In k (filter (fun v => negb (truthyEnv (processEnv env v))) API_KEYS))
          by (apply filter_In; auto).
        rewrite Ef in H. contradiction.
      * cbn [List.length Nat.ltb Nat.leb].
        assert (Hk : In k API_KEYS /\ negb (truthyEnv (processEnv env k)) = true).
        { apply (proj1 (filter_In (fun v => negb (truthyEnv (processEnv env v)))
                          k API_KEYS)).
          rewrite Ef. left. reflexivity. }
        destruct (inProduction env); cbn [andb negb].
        -- split; [intros _; split; [reflexivity | right; eauto] | eauto].
        -- split; [intros [e H]; discriminate | intros (H & _); discriminate].
    + destruct (inProduction env); cbn [negb].
      * split; [auto | eauto].
      * split; [intros [e H]; discriminate | intros (H & _); discriminate].
Qed.

(* ------------------------------------------------------------------ *)
(** * Construction of a service *)

(** X21.  A service reports itself configured exactly when its API key is present
    and not empty and, if its name points to one of the four providers,
    every environment variable required for that provider is set.  The
    adapters' names point to their own providers; a name that mentions none
    of them is exempt from the environment check. *)
Theorem configured_means_key_and_environment :
  forall (env : Env) (name : string) (key : option string)
         (cfg : option CircuitBreakerConfig),
    (isConfigured (newEnhancedApiService env name key cfg) = true <->
       truthyStr key = true /\
       forall k, getServiceKeyFromName name = Some k ->
         forall v, In v (REQUIRED_ENV_VARS k) -> truthyStr (env v) = true) /\
    getServiceKeyFromName "FluxService" = Some replicate /\
    getServiceKeyFromName "PerplexityService" = Some perplexity /\
    getServiceKeyFromName "GrokService" = Some grok /\
    getServiceKeyFromName "AnthropicService" = Some anthropic /\
    getServiceKeyFromName (toLowerCase name) = getServiceKeyFromName name.
Proof.
  intros env name key cfg. split; [|repeat split].
  - unfold isConfigured, newEnhancedApiService.
    destruct (getServiceKeyFromName name) as [k|];
      cbn [isEnvironmentValid config_apiKey]; rewrite andb_true_iff.
    + rewrite (validateServiceEnv_valid env k). split.
      * intros [H1 H2]. split; [exact H2|]. intros k' [= <-]. exact H1.
      * intros [H1 H2]. split; [apply H2; reflexivity | exact H1].
    + split.
      * intros [_ H]. split; [exact H | discriminate].
      * intros [H _]. auto.
  - unfold getServiceKeyFromName.
    assert (Hidem : toLowerCase (toLowerCase name) = toLowerCase name).
    { induction name as [|c rest IH]; [reflexivity|]. cbn. rewrite IH. f_equal.
      unfold lowerAscii.
      destruct ((65 <=? Ascii.nat_of_ascii c)%nat
                && (Ascii.nat_of_ascii c <=? 90)%nat) eqn:E; [|rewrite E; reflexivity].
      apply andb_prop in E as [E1 E2].
      apply Nat.leb_le in E1, E2.
      rewrite Ascii.nat_ascii_embedding by lia.
      destruct (Nat.leb_spec (Ascii.nat_of_ascii c + 32) 90); [lia|].
      rewrite andb_false_r. reflexivity. }
    rewrite Hidem. reflexivity.
Qed.

Lemma configured_means_key_and_environment_witness :
  isConfigured
    (newEnhancedApiService
       (fun v => if String.eqb v "REPLICATE_API_TOKEN" then Some "r8_token" else None)
       "FluxService" (Some "r8_token") None) = false.
Proof.
  apply not_true_is_false. intros H.
  apply (proj1 (proj1 (configured_means_key_and_environment
           (fun v => if String.eqb v "REPLICATE_API_TOKEN" then Some "r8_token" else None)
           "FluxService" (Some "r8_token") None))) in H.
  destruct H as [_ H].
  specialize (H replicate eq_refl "REPLICATE_FLUX_MODEL" (or_intror (or_introl eq_refl))).
  discriminate H.
Defined.

(** X22.  The breaker a service starts with.  Thresholds and timeout that are
    missing or zero in the configuration are replaced by 3, 2 and 30000 ms;
    so for a configuration without negative thresholds both thresholds are
    at least one, and the new breaker is CLOSED with zero counters, in the
    shape on which the breaker's invariants rest. *)
Theorem constructed_breaker_is_sound :
  forall (env : Env) (name : string) (key : option string)
         (cfg : option CircuitBreakerConfig),
    (forall c n, cfg = Some c ->
       cfg_failureThreshold c = Some n \/ cfg_successThreshold c = Some n -> 0 <= n) ->
    circuitBreaker (newEnhancedApiService env name key cfg)
      = newCircuitBreaker (serviceBreakerOptions cfg) /\
    serviceBreakerOptions None = mkOptions 3 2 30000 /\
    serviceBreakerOptions (Some (mkBreakerConfig (Some 0) (Some 0) (Some 0)))
      = mkOptions 3 2 30000 /\
    thresholdsOk (circuitBreaker (newEnhancedApiService env name key cfg)) /\
    belowThresholds (circuitBreaker (newEnhancedApiService env name key cfg)) /\
    settled (circuitBreaker (newEnhancedApiService env name key cfg)).
Proof.
  intros env name key cfg Hcfg.
  assert (Hb : circuitBreaker (newEnhancedApiService env name key cfg)
               = newCircuitBreaker (serviceBreakerOptions cfg)).
  { unfold newEnhancedApiService. destruct (getServiceKeyFromName name); reflexivity. }
  assert (Hor : forall n d, (forall z, n = Some z -> 0 <= z) -> 1 <= d -> 1 <= orNum n d).
  { intros n d Hn Hd. unfold orNum, truthyNum. destruct n as [z|]; [|exact Hd].
    destruct (Z.eqb_spec z 0); cbn [negb]; [exact Hd|].
    specialize (Hn z eq_refl). lia. }
  assert (Hf : 1 <= failureThreshold (serviceBreakerOptions cfg)).
  { unfold serviceBreakerOptions. cbn [failureThreshold]. apply Hor; [|lia].
    destruct cfg as [c|]; [|discriminate]. intros z Hz. apply (Hcfg c z eq_refl). auto. }
  assert (Hs : 1 <= successThreshold (serviceBreakerOptions cfg)).
  { unfold serviceBreakerOptions. cbn [successThreshold]. apply Hor; [|lia].
    destruct cfg as [c|]; [|discriminate]. intros z Hz. apply (Hcfg c z eq_refl). auto. }
  rewrite Hb. split; [reflexivity|]. split; [reflexivity|]. split; [reflexivity|].
  unfold thresholdsOk, belowThresholds, settled, newCircuitBreaker.
  cbn [state failureCount successCount nextAttempt lastError options].
  repeat split; auto; try lia; try congruence.
Qed.

Lemma constructed_breaker_is_sound_witness :
  thresholdsOk (circuitBreaker
    (newEnhancedApiService (fun _ => None) "GrokService" None
       (Some (mkBreakerConfig (Some 5) None (Some 0))))).
Proof.
  refine (proj1 (proj2 (proj2 (proj2 (constructed_breaker_is_sound
            (fun _ => None) "GrokService" None
            (Some (mkBreakerConfig (Some 5) None (Some 0))) _))))).
  intros c n [= <-] [H|H]; cbn in H; [injection H as <-; lia | discriminate].
Defined.

(* ------------------------------------------------------------------ *)
(** * Redaction of logged data *)

Lemma getField_setField fields f v k :
  defined (getField fields f) = true ->
  getField (setField fields f v) k =
  if String.eqb f k then v else getField fields k.
Proof.
  induction fields as [|[k' v'] fields IH]; cbn; [discriminate|].
  destruct (String.eqb_spec k' f) as [->|Hf]; cbn.
  - intros _. destruct (String.eqb f k); reflexivity.
  - intros H. rewrite (IH H).
    destruct (String.eqb_spec k' k) as [->|Hk]; [|reflexivity].
    destruct (String.eqb_spec f k); [congruence | reflexivity].
Qed.

Lemma keys_setField fields f v :
  defined (getField fields f) = true ->
  map fst (setField fields f v) = map fst fields.
Proof.
  induction fields as [|[k' v'] fields IH]; cbn; [discriminate|].
  destruct (String.eqb k' f); cbn; [reflexivity|].
  intros H. rewrite (IH H). reflexivity.
Qed.

Lemma setField_same fields f :
  defined (getField fields f) = true ->
  setField fields f (getField fields f) = fields.
Proof.
  induction fields as [|[k' v'] fields IH]; cbn; [discriminate|].
  destruct (String.eqb k' f); [reflexivity|].
  intros H. rewrite (IH H). reflexivity.
Qed.

Lemma getField_redactField fields f k :
  getField (redactField fields f) k =
  if String.eqb f k && defined (getField fields f) then redacted
  else getField fields k.
Proof.
  unfold redactField. destruct (defined (getField fields f)) eqn:E.
  - rewrite getField_setField by exact E.
    destruct (String.eqb f k); reflexivity.
  - rewrite andb_false_r. reflexivity.
Qed.

Lemma keys_redactField fields f :
  map fst (redactField fields f) = map fst fields.
Proof.
  unfold redactField. destruct (defined (getField fields f)) eqn:E;
    [apply keys_setField; exact E | reflexivity].
Qed.

Lemma getField_redactAll names : forall fields k,
  getField (fold_left redactField names fields) k =
  if existsb (String.eqb k) names && defined (getField fields k) then redacted
  else getField fields k.
Proof.
  induction names as [|f names IH]; intros fields k; cbn [fold_left existsb].
  - reflexivity.
  - rewrite IH, !getField_redactField, (String.eqb_sym k f).
    destruct (String.eqb_spec f k) as [->|Hk]; cbn [andb orb]; [|reflexivity].
    destruct (defined (getField fields k)) eqn:E.
    + cbn [defined redacted].
      destruct (existsb (String.eqb k) names); reflexivity.
    + rewrite E, andb_false_r. reflexivity.
Qed.

Lemma keys_redactAll names : forall fields,
  map fst (fold_left redactField names fields) = map fst fields.
Proof.
  induction names as [|f names IH]; intros fields; cbn [fold_left]; [reflexivity|].
  rewrite IH. apply keys_redactField.
Qed.

Lemma redactField_settled fields f :
  (getField fields f = redacted \/ getField fields f = JUndefined) ->
  redactField fields f = fields.
Proof.
  unfold redactField. intros [H|H]; rewrite H; cbn [defined redacted]; [|reflexivity].
  fold redacted. rewrite <- H. apply setField_same. rewrite H. reflexivity.
Qed.

Lemma redactAll_settled names : forall fields,
  (forall f, In f names ->
     getField fields f = redacted \/ getField fields f = JUndefined) ->
  fold_left redactField names fields = fields.
Proof.
  induction names as [|f names IH]; intros fields H; cbn [fold_left]; [reflexivity|].
  rewrite redactField_settled by (apply H; left; reflexivity).
  apply IH. intros g Hg. apply H. right. exact Hg.
Qed.

(** X23.  What [sanitizeLogData] does to an object: it keeps the fields and
    their order; a field whose name is one of the seven sensitive names and
    whose value is not undefined reads "[REDACTED]" afterwards; every other
    field reads as before, whatever it contains.  So the redaction is
    shallow and sensitive to letter case. *)
Theorem sanitizing_redacts_the_sensitive_fields :
  forall (fields : list (string * JsValue)),
    exists out,
      sanitizeLogData (JObj fields) = JObj out /\
      map fst out = map fst fields /\
      (forall k,
         getField out k =
           if existsb (String.eqb k) sensitiveFields && defined (getField fields k)
           then JStr "[REDACTED]"
           else getField fields k) /\
      (forall k, In k sensitiveFields ->
         getField out k = JStr "[REDACTED]" \/ getField out k = JUndefined) /\
      (forall k, ~ In k sensitiveFields -> getField out k = getField fields k).
Proof.
  intros fields. eexists. split; [reflexivity|]. cbn [spread].
  split; [apply keys_redactAll|].
  assert (Hget := getField_redactAll sensitiveFields fields).
  split; [exact Hget|]. split.
  - intros k Hk. rewrite Hget.
    assert (Hex : existsb (String.eqb k) sensitiveFields = true).
    { apply existsb_exists. exists k. split; [exact Hk | apply String.eqb_refl]. }
    rewrite Hex. cbn [andb].
    destruct (getField fields k); cbn [defined]; auto.
  - intros k Hk. rewrite Hget.
    destruct (existsb (String.eqb k) sensitiveFields) eqn:Hex; [|reflexivity].
    exfalso. apply Hk. apply existsb_exists in Hex as (x & Hx & Heq).
    apply String.eqb_eq in Heq. subst x. exact Hx.
Qed.

(** X24.  Sanitizing is idempotent, on every value: data that has been sanitized
    is not changed by sanitizing it again.  Falsy data (undefined, null,
    false, 0, the empty string) is returned as it is. *)
Theorem sanitizing_twice_changes_nothing :
  forall (d : JsValue),
    sanitizeLogData (sanitizeLogData d) = sanitizeLogData d /\
    (truthyValue d = false -> sanitizeLogData d = d).
Proof.
  intros d. unfold sanitizeLogData at 2 3 4.
  destruct (truthyValue d) eqn:E; cbn [negb].
  - split; [|discriminate].
    unfold sanitizeLogData. cbn [truthyValue negb spread]. f_equal.
    apply redactAll_settled. intros f Hf.
    rewrite getField_redactAll.
    assert (Hex : existsb (String.eqb f) sensitiveFields = true).
    { apply existsb_exists. exists f. split; [exact Hf | apply String.eqb_refl]. }
    rewrite Hex. cbn [andb].
    destruct (getField (spread d) f); cbn [defined]; auto.
  - split; [|reflexivity].
    unfold sanitizeLogData. rewrite E. reflexivity.
Qed.

Lemma sanitizing_twice_changes_nothing_witness :
  sanitizeLogData JNull = JNull.
Proof.
  exact (proj2 (sanitizing_twice_changes_nothing JNull) eq_refl).
Defined.

(** Redaction at work: the top-level [token] is hidden, while a
    lower-case [authorization] and a password inside a nested object are
    logged as they are. *)
Example redaction_is_shallow_and_case_sensitive :
  sanitizeLogData
    (JObj [("token", JStr "t0ps3cret");
           ("authorization", JStr "Bearer abc");
           ("user", JObj [("password", JStr "hunter2")]);
           ("key", JUndefined)])
  = JObj [("token", JStr "[REDACTED]");
          ("authorization", JStr "Bearer abc");
          ("user", JObj [("password", JStr "hunter2")]);
          ("key", JUndefined)].
Proof. reflexivity. Qed.

(* ------------------------------------------------------------------ *)
(** * The adapters when the key is present *)

Lemma createFallbackResponse_value rnd fb basePrompt msg w :
  exists image v,
    FluxService.createFallbackResponse rnd fb basePrompt msg w =
      (Normal (mkApiResponse
                 (Some (ImageData image basePrompt
                          (Some (mkApiError "FALLBACK_USED" msg NoDetails)) true))
                 None 200 true), v).
Proof.
  unfold FluxService.createFallbackResponse, FluxService.getFallbackImage,
         bind, ret, gets, modify.
  destruct (negb (FluxService.fallbackEnabled fb)
            || (List.length (FluxService.fallbackImages fb) =? 0)%nat);
    cbn; eexists _, _; reflexivity.
Qed.

(** X25.  [generateImage] never throws and, whatever the base class's [post]
    does, answers in one of two ways: with the very response that [post]
    returned, which happens only if that response is a success or fallbacks
    are disabled; or with a success of status 200 whose image is marked
    [fallback = true] and carries the error FALLBACK_USED.  With fallbacks
    enabled the caller therefore never sees a failure, and an error thrown
    by [post] is turned into a fallback success even when fallbacks are
    disabled. *)
Theorem image_generation_always_answers :
  forall (rnd : nat -> nat -> nat) (self : ApiService) (fb : FluxService.Fallback)
         (request : FluxService.ImageGenerationRequest) (w : World),
    exists resp,
      fst (FluxService.generateImage rnd self fb request w) = Normal resp /\
      ((exists sent v,
          api_post self "/api/generate-image" (Json sent) w = (Normal resp, v) /\
          truthyStr (apiKey self) = true /\
          (success resp = true \/ FluxService.fallbackEnabled fb = false))
       \/
       (exists image msg,
          resp = mkApiResponse
                   (Some (ImageData image (FluxService.prompt request)
                            (Some (mkApiError "FALLBACK_USED" msg NoDetails)) true))
                   None 200 true)) /\
      (FluxService.fallbackEnabled fb = true -> success resp = true).
Proof.
  intros rnd self fb request w. unfold FluxService.generateImage.
  destruct (truthyStr (apiKey self)) eqn:Ek; cbn [negb].
  - unfold tryCatch, bind at 1.
    match goal with |- context [api_post self ?p (Json ?s) w] =>
      destruct (api_post self p (Json s) w) as [[resp|e] v] eqn:Ep end.
    + destruct (success resp) eqn:Es; cbn [negb andb].
      * exists resp. cbn [fst ret]. split; [reflexivity|]. split; [|auto].
        left. eexists _, _. split; [exact Ep | auto].
      * destruct (FluxService.fallbackEnabled fb) eqn:Ef.
        -- match goal with |- context [FluxService.createFallbackResponse rnd fb ?p ?m v] =>
             destruct (createFallbackResponse_value rnd fb p m v) as (image & v' & Hv);
             rewrite Hv end.
           eexists. split; [reflexivity|]. split; [|reflexivity].
           right. eexists _, _. reflexivity.
        -- exists resp. cbn [fst ret]. split; [reflexivity|]. split; [|discriminate].
           left. eexists _, _. split; [exact Ep | auto].
    + match goal with |- context [FluxService.createFallbackResponse rnd fb ?p ?m v] =>
        destruct (createFallbackResponse_value rnd fb p m v) as (image & v' & Hv);
        rewrite Hv end.
      eexists. split; [reflexivity|]. split; [|reflexivity].
      right. eexists _, _. reflexivity.
  - match goal with |- context [FluxService.createFallbackResponse rnd fb ?p ?m w] =>
      destruct (createFallbackResponse_value rnd fb p m w) as (image & v' & Hv);
      rewrite Hv end.
    eexists. split; [reflexivity|]. split; [|reflexivity].
    right. eexists _, _. reflexivity.
Qed.

(** X26.  The fallback image is always one of the configured ones.  Given that
    [Math.floor(Math.random() * n)] is below [n], [getFallbackImage]
    returns an element of [fallbackImages] when fallbacks are enabled and the
    list is not empty, drawing one random number; otherwise it returns the
    placeholder and draws none. *)
Theorem fallback_image_is_configured :
  forall (rnd : nat -> nat -> nat) (fb : FluxService.Fallback) (w : World),
    (forall k n, (0 < n)%nat -> (rnd k n < n)%nat) ->
    exists image,
      fst (FluxService.getFallbackImage rnd fb w) = Normal image /\
      (FluxService.fallbackEnabled fb = true ->
       FluxService.fallbackImages fb <> [] ->
         In image (FluxService.fallbackImages fb) /\
         draws (snd (FluxService.getFallbackImage rnd fb w)) = S (draws w)) /\
      (FluxService.fallbackEnabled fb = false \/ FluxService.fallbackImages fb = [] ->
         image = FluxService.placeholderUrl fb /\
         snd (FluxService.getFallbackImage rnd fb w) = w).
Proof.
  intros rnd fb w Hrnd. unfold FluxService.getFallbackImage.
  destruct (FluxService.fallbackEnabled fb) eqn:Ef; cbn [negb orb].
  - destruct (FluxService.fallbackImages fb) as [|x l] eqn:El.
    + cbn. eexists. split; [reflexivity|]. split; [congruence | auto].
    + cbn [List.length Nat.eqb]. unfold bind, gets, modify, ret. cbn [fst snd draws].
      eexists. split; [reflexivity|]. split.
      * intros _ _. split; [|reflexivity].
        apply nth_In. apply Hrnd. cbn. lia.
      * intros [H|H]; discriminate.
  - cbn. eexists. split; [reflexivity|]. split; [discriminate | auto].
Qed.

Lemma fallback_image_is_configured_witness :
  exists image,
    fst (FluxService.getFallbackImage Sample.firstIndex Sample.fallback Sample.fresh)
      = Normal image /\
    In image (FluxService.fallbackImages Sample.fallback).
Proof.
  destruct (fallback_image_is_configured Sample.firstIndex Sample.fallback
              Sample.fresh (fun k n H => H)) as (image & H1 & H2 & _).
  exists image. split; [exact H1|].
  exact (proj1 (H2 eq_refl ltac:(discriminate))).
Defined.

(** X27.  With an API key present, the Grok and Perplexity adapters and
    Anthropic's [query] and [analyzeLanguage] never throw, whatever the base
    class's [post] does: in all four, an error thrown by [post] comes back
    as a failure with status 500 that carries [handleError]'s
    classification.  A response returned by [post] is passed on unchanged
    by Grok and Perplexity, and by Anthropic's [query] with the same status
    and the same [success] flag.  [analyzeLanguage] passes a failed response
    on unchanged; otherwise it answers with the response itself, with a
    success of the same status and no error, or with the failure PARSE_ERROR
    of status 500. *)
Theorem adapters_turn_exceptions_into_failures :
  forall (self : ApiService) (w : World),
    truthyStr (apiKey self) = true ->
    (forall word,
       GrokService.getSuggestions self word w =
         match api_post self "/api/suggestions" (Json word) w with
         | (Normal resp, v) => (Normal resp, v)
         | (Abrupt e, v) =>
             (Normal (mkApiResponse None (Some (api_handleError self e)) 500 false), v)
         end) /\
    (forall text,
       PerplexityService.query self text w =
         match api_post self "/api/query" (Json text) w with
         | (Normal resp, v) => (Normal resp, v)
         | (Abrupt e, v) =>
             (Normal (mkApiResponse None (Some (api_handleError self e)) 500 false), v)
         end) /\
    (forall decode text,
       match api_post self "/v1/messages" (Json text) w with
       | (Normal resp, v) =>
           exists out,
             AnthropicService.query decode self text w = (Normal out, v) /\
             status out = status resp /\ success out = success resp /\
             (success resp = false -> out = resp)
       | (Abrupt e, v) =>
           AnthropicService.query decode self text w =
             (Normal (mkApiResponse None (Some (api_handleError self e)) 500 false), v)
       end) /\
    (forall hasContent parse text,
       match api_post self "/v1/messages" (Json text) w with
       | (Normal resp, v) =>
           exists out,
             AnthropicService.analyzeLanguage hasContent parse self text w
               = (Normal out, v) /\
             (success resp = false -> out = resp) /\
             (success out = true ->
                success resp = true /\ status out = status resp) /\
             (out = resp \/
              (success out = true /\ error out = None /\
               status out = status resp) \/
              exists parseError,
                out = mkApiResponse None
                        (Some (mkApiError "PARSE_ERROR"
                                 "Failed to parse Claude response as JSON"
                                 (TextDetails parseError)))
                        500 false)
       | (Abrupt e, v) =>
           AnthropicService.analyzeLanguage hasContent parse self text w =
             (Normal (mkApiResponse None (Some (api_handleError self e)) 500 false), v)
       end).
Proof.
  intros self w Hkey.
  unfold GrokService.getSuggestions, PerplexityService.query,
         AnthropicService.query, AnthropicService.analyzeLanguage.
  rewrite Hkey. cbn [negb]. unfold tryCatch, bind, ret, caughtResponse.
  split; [|split; [|split]].
  - intros word. destruct (api_post self _ _ w) as [[resp|e] v]; reflexivity.
  - intros text. destruct (api_post self _ _ w) as [[resp|e] v]; reflexivity.
  - intros decode text.
    destruct (api_post self _ _ w) as [[resp|e] v]; [|reflexivity].
    destruct (data resp) as [d|] eqn:Ed.
    + destruct (success resp) eqn:Es; cbn [andb].
      * destruct (truthyData (Some d)); eexists; split; try reflexivity; cbn;
          repeat split; auto; discriminate.
      * eexists. split; [reflexivity|]. auto.
    + eexists. split; [reflexivity|]. auto.
  - intros hasContent parse text.
    destruct (api_post self _ _ w) as [[resp|e] v]; [|reflexivity].
    destruct (data resp) as [d|];
      [|exists resp; split; [reflexivity | repeat split; auto; congruence]].
    destruct (success resp) eqn:Es; cbn [andb];
      [|exists resp; split; [reflexivity | repeat split; auto; congruence]].
    destruct (truthyData (Some d) && hasContent d);
      [|exists resp; split; [reflexivity | repeat split; auto; congruence]].
    destruct (parse d) as [analysis|parseError]; eexists;
      (split; [reflexivity|]); cbn [success status error].
    + split; [discriminate|]. split; [auto|]. right. left. auto.
    + split; [discriminate|]. split; [discriminate|]. right. right. eauto.
Qed.

Lemma adapters_turn_exceptions_into_failures_witness :
  GrokService.getSuggestions
    (enhancedService Sample.healthy (Some "xai-key")) "serendipity" Sample.fresh
  = match api_post (enhancedService Sample.healthy (Some "xai-key"))
            "/api/suggestions" (Json "serendipity") Sample.fresh with
    | (Normal resp, v) => (Normal resp, v)
    | (Abrupt e, v) =>
        (Normal (mkApiResponse None
                   (Some (api_handleError
                            (enhancedService Sample.healthy (Some "xai-key")) e))
                   500 false), v)
    end.
Proof.
  exact (proj1 (adapters_turn_exceptions_into_failures
                  (enhancedService Sample.healthy (Some "xai-key")) Sample.fresh
                  eq_refl) "serendipity").
Defined.

(* ------------------------------------------------------------------ *)
(** * The route /api/analyze-language *)

Import AnalyzeLanguageRoute.

Section RouteFacts.

Variable analyze : string -> M ApiResponse.
Variable typeError : string.
Variable toUnsignedShort : Z -> Z.
Variable notSerializable statusOutOfRange : string.
Variable bodyNotAllowed : Z -> string.

Hypothesis small_status_is_kept : forall s, 0 <= s < 65536 -> toUnsignedShort s = s.

Local Abbreviation json :=
  (NextResponse_json toUnsignedShort notSerializable statusOutOfRange bodyNotAllowed).
Local Abbreviation route :=
  (POST analyze typeError toUnsignedShort notSerializable statusOutOfRange
        bodyNotAllowed).
Local Abbreviation serverError details :=
  (mkHttpResponse 500 (ErrorBody "Internal server error" None (Some details))).










End RouteFacts.


